(** * rest_framework_swagger.docgenerator: the documentation generator

    A shallow embedding of [DocumentationGenerator]
    (rest_framework_swagger/docgenerator.py) and the properties of the
    documentation tree it builds: the per-API entries of [generate], the
    operation dictionaries of [get_operations], the read and write models of
    [get_models], the walk over nested serializers of
    [_find_field_serializers] and the field schemas of
    [_get_serializer_fields]. *)

From Stdlib Require Import ZArith Ascii String List Permutation.
From stdpp Require Import base option list gmap strings.

Set Warnings "-register-all".

Local Open Scope string_scope.
Local Open Scope list_scope.

(** ** Python values

    The generator assembles a JSON-serialisable tree.  [value] is that tree:
    [None], booleans, integers, strings, lists and dictionaries.  A dictionary
    literal, and an [OrderedDict], is kept as the list of its items in
    insertion order; [Dict.set] is item assignment [d[k] = v]. *)

Inductive value : Type :=
  | VNone
  | VBool (b : bool)
  | VInt (z : Z)
  | VStr (s : string)
  | VList (l : list value)
  | VDict (d : list (string * value)).

Module Dict.

Section WithValues.
Context {A : Type}.

(** [d[k]], [None] standing for a missing key. *)
Fixpoint get (k : string) (d : list (string * A)) : option A :=
  match d with
  | [] => None
  | (k', v) :: rest => if decide (k = k') then Some v else get k rest
  end.

(** [d[k] = v]: an existing key keeps its place, a new one goes last. *)
Fixpoint set (k : string) (v : A) (d : list (string * A)) : list (string * A) :=
  match d with
  | [] => [(k, v)]
  | (k', v') :: rest =>
      if decide (k = k') then (k, v) :: rest else (k', v') :: set k v rest
  end.

(** [OrderedDict(items)] *)
Definition of_items (items : list (string * A)) : list (string * A) :=
  fold_left (fun d kv => set kv.1 kv.2 d) items [].

(** [d.keys()] *)
Definition keys (d : list (string * A)) : list string := map fst d.

(** [k in d] *)
Definition mem (k : string) (d : list (string * A)) : bool :=
  bool_decide (k ∈ keys d).

End WithValues.

End Dict.

(** [x in l] for a list of strings. *)
Definition str_in (x : string) (l : list string) : bool := bool_decide (x ∈ l).

(** ** Python string methods used by the generator *)

Module PyStr.

(** [s.startswith(p)] *)
Fixpoint startswith (p s : string) : bool :=
  match p, s with
  | EmptyString, _ => true
  | String a p', String b s' => if decide (a = b) then startswith p' s' else false
  | String _ _, EmptyString => false
  end.

(** [replace_from old skip s]: the scan of [s.replace(old, '')] from left to
    right; [skip] counts the characters of a matched occurrence that are
    still to be dropped. *)
Fixpoint replace_from (old : string) (skip : nat) (s : string) : string :=
  match s with
  | EmptyString => EmptyString
  | String c s' =>
      match skip with
      | S k => replace_from old k s'
      | O =>
          if startswith old s
          then replace_from old (String.length old - 1) s'
          else String c (replace_from old 0 s')
      end
  end.

(** [s.replace(old, '')] for a non-empty [old]: every non-overlapping
    occurrence of [old], found from the left, is removed. *)
Definition remove_all (old s : string) : string := replace_from old 0 s.

Definition is_upper (c : ascii) : bool :=
  let n := nat_of_ascii c in (65 <=? n)%nat && (n <=? 90)%nat.
Definition is_lower (c : ascii) : bool :=
  let n := nat_of_ascii c in (97 <=? n)%nat && (n <=? 122)%nat.
Definition upper (c : ascii) : ascii :=
  if is_lower c then ascii_of_nat (nat_of_ascii c - 32) else c.
Definition lower (c : ascii) : ascii :=
  if is_upper c then ascii_of_nat (nat_of_ascii c + 32) else c.

(** [s.title()] on ASCII text: a letter that follows a letter is lowered,
    any other letter is raised, and the other characters are kept. *)
Fixpoint title_from (previous_is_cased : bool) (s : string) : string :=
  match s with
  | EmptyString => EmptyString
  | String c s' =>
      if is_upper c || is_lower c
      then String (if previous_is_cased then lower c else upper c) (title_from true s')
      else String c (title_from false s')
  end.

Definition title (s : string) : string := title_from false s.

(** The characters [s.strip()] removes, a character standing for the code
    point of its number: the white space below 256, which is tab to carriage
    return, the four separators, the space, NEL and the no-break space. *)
Definition is_space (c : ascii) : bool :=
  let n := nat_of_ascii c in
  ((9 <=? n)%nat && (n <=? 13)%nat) || ((28 <=? n)%nat && (n <=? 32)%nat)
  || (n =? 133)%nat || (n =? 160)%nat.

(** [s.strip() == ''] *)
Fixpoint strip_is_empty (s : string) : bool :=
  match s with
  | EmptyString => true
  | String c s' => is_space c && strip_is_empty s'
  end.

(** [str(x)] of an optional string, as [str.format] renders it. *)
Definition format_opt (o : option string) : string :=
  match o with Some s => s | None => "None" end.

End PyStr.

(** ** Fields and serializer classes

    What the generator reads from a field object ([getattr] with a default
    folds a missing attribute and [None] together where the code does not tell
    them apart). *)

Record Attrs : Type := mkAttrs {
  field_class : string;       (* [type(field).__name__] *)
  write_only : option bool;   (* [None]: no such attribute *)
  read_only : option bool;
  required : option bool;
  help_text : option string;  (* [None]: missing or [None] *)
  max_val : value;            (* [VNone]: missing or [None] *)
  min_val : value;
  choices : option (list (value * value))
                              (* [Some l] when [isinstance(field.choices, list)] *)
}.

(** A field is a plain field or a serializer ([isinstance(field,
    BaseSerializer)]) of some class.  [many] marks the list-wrapped
    serializer: from rest_framework 3.0.0 a [ListSerializer] whose [child] is
    an instance of [cls], before that an instance of [cls] with
    [field.many] set. *)

Inductive FieldKind (S : Type) : Type :=
  | Plain
  | Serializer (many : bool) (cls : S).

Arguments Plain {S}.
Arguments Serializer {S} many cls.

Record Field (S : Type) : Type := mkField {
  attrs : Attrs;
  kind : FieldKind S
}.

Arguments mkField {S} attrs kind.
Arguments attrs {S} _.
Arguments kind {S} _.

(** A serializer class: its [__name__] and the fields [cls().get_fields()]
    gives, in order.  Classes nest through their serializer fields, and the
    declared fields of a class make a finite tree.  A class whose own
    [get_fields] adds a serializer of the class itself is not such a tree:
    for it the walk over the fields is written a second time, with
    [get_fields] as a function of the class ([find_in_class_bounded]). *)

Inductive SerializerClass : Type :=
  | Class (name : string) (declared : list (string * Field SerializerClass)).

Abbreviation field := (Field SerializerClass).

Definition class_name (c : SerializerClass) : string :=
  match c with Class n _ => n end.

(** [cls().get_fields().items()]; an instance's [get_fields()] gives the
    fields of its class as well. *)
Definition get_fields (c : SerializerClass) : list (string * field) :=
  match c with Class _ fs => fs end.

(** What the code calls a serializer: a serializer class, an instance of one,
    or a [ListSerializer] around an instance. *)
Inductive serializer : Type :=
  | SClass (c : SerializerClass)
  | SInstance (c : SerializerClass)
  | SList (child : SerializerClass).

Definition serializer_class (s : serializer) : SerializerClass :=
  match s with SClass c | SInstance c | SList c => c end.

(** An object in a set of serializer instances: its identity, a number given
    when the object is made, and what it is. *)
Abbreviation obj := (nat * serializer)%type.

(** ** Equality of values and classes

    Python keeps classes in sets by identity; the model compares them by
    structure, which needs equality to be decidable on the nested types. *)

Definition value_eq_dec : forall x y : value, {x = y} + {x <> y}.
Proof.
  fix IH 1.
  intros [| b1 | z1 | s1 | l1 | d1] [| b2 | z2 | s2 | l2 | d2];
    try (right; discriminate); try (left; congruence).
  - destruct (decide (b1 = b2)) as [? | ?]; [left; congruence | right; congruence].
  - destruct (Z.eq_dec z1 z2) as [? | ?]; [left; congruence | right; congruence].
  - destruct (decide (s1 = s2)) as [? | ?]; [left; congruence | right; congruence].
  - assert (Hl : {l1 = l2} + {l1 <> l2}).
    { revert l2. induction l1 as [| a l1 IHl]; intros [| b l2];
        try (right; discriminate); try (left; congruence).
      destruct (IH a b) as [? | ?]; [| right; congruence].
      destruct (IHl l2) as [? | ?]; [left; congruence | right; congruence]. }
    destruct Hl as [? | ?]; [left; congruence | right; congruence].
  - assert (Hd : {d1 = d2} + {d1 <> d2}).
    { revert d2. induction d1 as [| [k1 a] d1 IHd]; intros [| [k2 b] d2];
        try (right; discriminate); try (left; congruence).
      destruct (decide (k1 = k2)) as [? | ?]; [| right; congruence].
      destruct (IH a b) as [? | ?]; [| right; congruence].
      destruct (IHd d2) as [? | ?]; [left; congruence | right; congruence]. }
    destruct Hd as [? | ?]; [left; congruence | right; congruence].
Defined.

#[global] Instance value_eq_decision : EqDecision value := value_eq_dec.

#[global] Instance Attrs_eq_decision : EqDecision Attrs.
Proof. solve_decision. Defined.

Definition SerializerClass_eq_dec :
  forall x y : SerializerClass, {x = y} + {x <> y}.
Proof.
  fix IH 1.
  intros [n1 fs1] [n2 fs2].
  destruct (decide (n1 = n2)) as [? | ?]; [| right; congruence].
  assert (Hfs : {fs1 = fs2} + {fs1 <> fs2}).
  { revert fs2. induction fs1 as [| [k1 [a1 q1]] fs1 IHfs]; intros [| [k2 [a2 q2]] fs2];
      try (right; discriminate); try (left; congruence).
    destruct (decide (k1 = k2)) as [? | ?]; [| right; congruence].
    destruct (decide (a1 = a2)) as [? | ?]; [| right; congruence].
    assert (Hq : {q1 = q2} + {q1 <> q2}).
    { destruct q1 as [| m1 c1], q2 as [| m2 c2];
        try (right; discriminate); try (left; congruence).
      destruct (decide (m1 = m2)) as [? | ?]; [| right; congruence].
      destruct (IH c1 c2) as [? | ?]; [left; congruence | right; congruence]. }
    destruct Hq as [? | ?]; [| right; congruence].
    destruct (IHfs fs2) as [? | ?]; [left; congruence | right; congruence]. }
  destruct Hfs as [? | ?]; [left; congruence | right; congruence].
Defined.

#[global] Instance SerializerClass_eq_decision : EqDecision SerializerClass :=
  SerializerClass_eq_dec.

#[global] Instance serializer_eq_decision : EqDecision serializer.
Proof. solve_decision. Defined.

(** ** Views, introspectors and docstring parsers

    The introspector classes and the YAML docstring parser live in
    rest_framework_swagger/introspectors.py and are used here through their
    methods only, so an object is the record of what its methods answer. *)

(** A view callback: [__module__], [__name__] and
    [issubclass(callback, viewsets.ViewSetMixin)]. *)
Record Callback : Type := mkCallback {
  cb_module : string;
  cb_name : string;
  cb_is_viewset : bool
}.

#[global] Instance Callback_eq_decision : EqDecision Callback.
Proof. solve_decision. Defined.

(** An entry of the [apis] list: [api['path']], [api['pattern']],
    [api['callback']]. *)
Record Api : Type := mkApi {
  api_path : string;
  api_pattern : string;
  api_callback : Callback
}.

(** The parser [method_introspector.get_yaml_parser()] gives: its
    [yaml_error] attribute (as [str] renders it) and what its methods return;
    [discover_parameters] is the call with the introspector the parser came
    from. *)
Record YamlParser : Type := mkYamlParser {
  yaml_error : option string;
  get_response_type : option value;
  should_omit_serializer : bool;
  get_response_messages : list value;
  discover_parameters : list value
}.

(** An object met when iterating over a view introspector. *)
Record MethodIntrospector : Type := mkMethodIntrospector {
  is_BaseMethodIntrospector : bool;
  get_http_method : string;
  get_summary : value;
  get_nickname : value;
  get_notes : string;
  method : string;
  get_response_serializer_class : option SerializerClass;
  get_yaml_parser : YamlParser
}.

(** A view introspector: its [callback] attribute and the objects
    [for method_introspector in introspector] runs over. *)
Record Introspector : Type := mkIntrospector {
  callback : Callback;
  method_introspectors : list MethodIntrospector
}.

(** The [data] dictionary of [_get_serializer_fields], one component per
    key. *)
Record SerializerData : Type := mkSerializerData {
  data_fields : list (string * value);
  data_required : list string;
  data_write_only : list string;
  data_read_only : list string
}.

(** [getattr(field, attr, False)] read as a condition. *)
Definition getattr_false (a : option bool) : bool :=
  match a with Some b => b | None => false end.

Definition is_None (v : value) : bool :=
  match v with VNone => true | _ => false end.

Definition value_of_opt_bool (o : option bool) : value :=
  match o with Some b => VBool b | None => VNone end.

Definition value_of_opt_string (o : option string) : value :=
  match o with Some s => VStr s | None => VNone end.

(** [isinstance(field, BaseSerializer)] *)
Definition is_BaseSerializer (f : field) : bool :=
  match kind f with Serializer _ _ => true | Plain => false end.

(** ** A small project to run the generator on

    A blog: posts with their author, whose profile is a serializer again, and
    with a list of comments.  The stand-ins for the imports follow
    rest_framework 3 and the introspectors module. *)

Module Examples.

Definition plain (cls : string) (ro wo req : bool) : field :=
  mkField (mkAttrs cls (Some wo) (Some ro) (Some req) None VNone VNone None) Plain.

Definition nested (many ro wo req : bool) (c : SerializerClass) : field :=
  mkField
    (mkAttrs (if many then "ListSerializer" else class_name c)
             (Some wo) (Some ro) (Some req) None VNone VNone None)
    (Serializer many c).

Definition rating : field :=
  mkField
    (mkAttrs "IntegerField" (Some false) (Some false) (Some false)
             (Some "Stars, one to five") (VInt 5) (VInt 1) None)
    Plain.

Definition votes : field :=
  mkField
    (mkAttrs "IntegerField" (Some false) (Some false) (Some false)
             None VNone (VInt 0) None)
    Plain.

Definition ProfileSerializer : SerializerClass :=
  Class "ProfileSerializer" [
    ("bio", plain "CharField" false false false);
    ("karma", plain "IntegerField" true false false)].

Definition UserSerializer : SerializerClass :=
  Class "UserSerializer" [
    ("id", plain "IntegerField" true false false);
    ("username", plain "CharField" false false true);
    ("password", plain "CharField" false true true);
    ("profile", nested false false false false ProfileSerializer)].

Definition CommentSerializer : SerializerClass :=
  Class "CommentSerializer" [
    ("id", plain "IntegerField" true false false);
    ("text", plain "CharField" false false true);
    ("rating", rating);
    ("votes", votes)].

Definition PostSerializer : SerializerClass :=
  Class "PostSerializer" [
    ("id", plain "IntegerField" true false false);
    ("title", plain "CharField" false false true);
    ("draft", plain "BooleanField" false false false);
    ("author", nested false true false false UserSerializer);
    ("comments", nested true false false false CommentSerializer);
    ("attachments", nested true false true false CommentSerializer)].

Definition labels : field :=
  mkField
    (mkAttrs "MultipleChoiceField" (Some false) (Some false) (Some true)
             (Some "  ") VNone VNone
             (Some [(VStr "n", VStr "News"); (VStr "o", VStr "Opinion")]))
    Plain.

Definition TagSerializer : SerializerClass :=
  Class "TagSerializer" [
    ("slug", plain "CharField" true false false);
    ("labels", labels)].

Definition VERSION : string := "3.0.5".

Definition PRIMITIVES : gmap string (string * list string) :=
  list_to_map [
    ("integer", ("int32", ["int64"]));
    ("number", ("float", ["double"]));
    ("string", ("string", ["byte"; "date"; "date-time"]));
    ("boolean", ("boolean", []))].

Definition get_data_type (f : field) : string :=
  let c := field_class (attrs f) in
  if bool_decide (c = "IntegerField") then "integer"
  else if bool_decide (c = "BooleanField") then "boolean"
  else if bool_decide (c = "FloatField") then "float"
  else if bool_decide (c = "ChoiceField") then "choice"
  else if bool_decide (c = "MultipleChoiceField") then "multiple choice"
  else if bool_decide (c = "ListSerializer") then "array"
  else "string".

Definition get_default_value (f : field) : value := VNone.

Definition get_view_description (c : Callback) : value :=
  VStr ("Docs of " +:+ cb_name c).

Definition PostViewSet : Callback := mkCallback "blog.views" "PostViewSet" true.
Definition ViewerStatsView : Callback := mkCallback "blog.views" "ViewerStatsView" false.
Definition ping : Callback := mkCallback "rest_framework.decorators" "ping" false.

Definition no_yaml : YamlParser := mkYamlParser None None false [] [].

Definition broken_yaml : YamlParser :=
  mkYamlParser (Some "mapping values are not allowed here") None false [] [].

Definition typed_yaml : YamlParser :=
  mkYamlParser None
    (Some (VDict [("count", VDict [("type", VStr "integer")])]))
    false
    [VDict [("code", VInt 404); ("message", VStr "Not found")]]
    [VDict [("name", VStr "since"); ("paramType", VStr "query")]].

Definition list_posts : MethodIntrospector :=
  mkMethodIntrospector true "GET" (VStr "All posts") (VStr "Post_list")
    "Lists the posts." "list" (Some PostSerializer) no_yaml.

Definition create_post : MethodIntrospector :=
  mkMethodIntrospector true "POST" (VStr "New post") (VStr "Post_create")
    "Creates a post." "create" (Some PostSerializer) broken_yaml.

Definition options_posts : MethodIntrospector :=
  mkMethodIntrospector true "OPTIONS" VNone VNone "" "options" None no_yaml.

Definition viewer_stats : MethodIntrospector :=
  mkMethodIntrospector true "GET" (VStr "Stats") (VStr "Viewer_stats")
    "Counts." "GET" (Some CommentSerializer) typed_yaml.

Definition ping_get : MethodIntrospector :=
  mkMethodIntrospector true "GET" (VStr "Ping") (VStr "ping")
    "Pong." "GET" None no_yaml.

Definition WrappedAPIViewIntrospector (c : Callback) (path pattern : string)
  : Introspector := mkIntrospector c [ping_get].

Definition ViewSetIntrospector (c : Callback) (path pattern : string)
    (patterns : list string) : Introspector :=
  mkIntrospector c [list_posts; create_post; options_posts].

Definition APIViewIntrospector (c : Callback) (path pattern : string)
  : Introspector := mkIntrospector c [viewer_stats].

Definition explicit_serializers : list SerializerClass := [].

Definition apis : list Api := [
  mkApi "/posts/" "^posts/$" PostViewSet;
  mkApi "/stats/" "^stats/$" ViewerStatsView;
  mkApi "/ping/" "^ping/$" ping].

(** A tree of nodes: the class declares two fields, and its [get_fields]
    adds the parent, a serializer of the class itself. *)
Definition NodeSerializer : SerializerClass :=
  Class "NodeSerializer" [
    ("id", plain "IntegerField" true false false);
    ("label", plain "CharField" false false true)].

Definition node_get_fields (c : SerializerClass) : list (string * field) :=
  if bool_decide (c = NodeSerializer)
  then get_fields c ++ [("parent", nested false false false false NodeSerializer)]
  else get_fields c.

Definition NodeViewSet : Callback := mkCallback "blog.views" "NodeViewSet" true.

Definition list_nodes : MethodIntrospector :=
  mkMethodIntrospector true "GET" (VStr "All nodes") (VStr "Node_list")
    "Lists the nodes." "list" (Some NodeSerializer) no_yaml.

Definition NodeViewSetIntrospector (c : Callback) (path pattern : string)
    (patterns : list string) : Introspector :=
  mkIntrospector c [list_nodes].

Definition node_apis : list Api := [mkApi "/nodes/" "^nodes/$" NodeViewSet].

End Examples.

(** ** The response type name as the specification words it

    "The view class name has the suffixes 'ViewSet', 'APIView' and 'View'
    removed": [claimed_view_name] drops each of them where the name ends with
    it.  It is compared with what the code computes. *)




Section Generator.

(** *** What the module imports *)

(** [rest_framework.VERSION] *)
Variable VERSION : string.

(** [BaseMethodIntrospector.PRIMITIVES]: data type to its list of formats,
    a list that has a first element. *)
Variable PRIMITIVES : gmap string (string * list string).

(** [introspectors.get_data_type] and [introspectors.get_default_value] *)
Variable get_data_type : field -> string.
Variable get_default_value : field -> value.

(** [IntrospectorHelper.get_view_description] *)
Variable get_view_description : Callback -> value.

(** The three introspector classes, as their constructors. *)
Variable WrappedAPIViewIntrospector : Callback -> string -> string -> Introspector.
Variable ViewSetIntrospector :
  Callback -> string -> string -> list string -> Introspector.
Variable APIViewIntrospector : Callback -> string -> string -> Introspector.

(** The class attribute [explicit_serializers], which this module only
    reads. *)
Variable explicit_serializers : list SerializerClass.

(** Modelled from the spec: [IntrospectorHelper.get_serializer_name] is
    defined in introspectors.py, which is not among the sources.  It names a
    serializer: the name of the class, of an instance's class, of the class
    of a list-wrapped serializer's child; there is no name for [None]. *)
Definition serializer_name (s : serializer) : string :=
  class_name (serializer_class s).

(** Modelled from the spec: [IntrospectorHelper.get_serializer_name] on what
    may be [None], for which it gives [None]. *)
Definition get_serializer_name (s : option serializer) : option string :=
  serializer_name <$> s.

(** [rest_framework.VERSION >= '3.0.0'] and [< '3.0.0']: string
    comparisons. *)
Definition version_ge_3 : bool := String.leb "3.0.0" VERSION.
Definition version_lt_3 : bool := String.ltb VERSION "3.0.0".

(** The object a serializer field is: a [ListSerializer] when list-wrapped
    under rest_framework 3, an instance of its class otherwise. *)
Definition field_object (many : bool) (cls : SerializerClass) : serializer :=
  if version_ge_3 && many then SList cls else SInstance cls.

(** [isinstance(s, ListSerializer)] *)
Definition is_ListSerializer (s : serializer) : bool :=
  match s with SList _ => true | _ => false end.

(** *** [_get_serializer_fields] *)

(** The loop body up to [data['fields'][name] = f]: the dictionary [f] of
    one field. *)
Definition field_schema (field : field) : list (string * value) :=
  let a := attrs field in
  let data_type := get_data_type field in
  (* guess format *)
  let data_format :=
    match PRIMITIVES !! data_type with
    | Some (first, _) => first
    | None => "string"
    end in
  let description :=
    match help_text a with
    | Some d =>
        if bool_decide (d = "") || PyStr.strip_is_empty d then None else Some d
    | None => None
    end in
  let f := [
    ("description", value_of_opt_string description);
    ("type", VStr data_type);
    ("format", VStr data_format);
    ("required", VBool (getattr_false (required a)));
    ("defaultValue", get_default_value field);
    ("readOnly", value_of_opt_bool (read_only a))
  ] in
  (* Min/Max values *)
  let max_val := max_val a in
  let min_val := min_val a in
  let f :=
    if negb (is_None max_val) && bool_decide (data_type = "integer")
    then Dict.set "minimum" min_val f else f in
  let f :=
    if negb (is_None max_val) && bool_decide (data_type = "integer")
    then Dict.set "maximum" max_val f else f in
  (* ENUM options *)
  let f :=
    if bool_decide (get_data_type field = "multiple choice")
    then match choices a with
         | Some l => Dict.set "enum" (VList (map fst l)) f
         | None => f
         end
    else f in
  (* Support for complex types *)
  match kind field with
  | Serializer many cls =>
      let field_serializer := get_serializer_name (Some (field_object many cls)) in
      let field_serializer :=
        if getattr_false (write_only a)
        then Some ("Write" +:+ PyStr.format_opt field_serializer)
        else field_serializer in
      let f := Dict.set "type" (value_of_opt_string field_serializer) f in
      let has_many :=
        if version_lt_3 then many (* field.many *)
        else is_ListSerializer (field_object many cls) in
      if has_many
      then
        let f := Dict.set "type" (VStr "array") f in
        if bool_decide (is_Some (PRIMITIVES !! data_type))
        then Dict.set "items" (VDict [("type", VStr data_type)]) f
        else Dict.set "items" (VDict [("$ref", value_of_opt_string field_serializer)]) f
      else f
  | Plain => f
  end.

(** One turn of [for name, field in fields.items()]. *)
Definition add_field (data : SerializerData) (item : string * field) : SerializerData :=
  let '(name, field) := item in
  let a := attrs field in
  {| data_write_only :=
       if getattr_false (write_only a)
       then data_write_only data ++ [name] else data_write_only data;
     data_read_only :=
       if getattr_false (read_only a)
       then data_read_only data ++ [name] else data_read_only data;
     data_required :=
       if getattr_false (required a)
       then data_required data ++ [name] else data_required data;
     (* memorize discovered field *)
     data_fields := Dict.set name (VDict (field_schema field)) (data_fields data) |}.

Definition empty_data : SerializerData :=
  {| data_fields := []; data_required := []; data_write_only := [];
     data_read_only := [] |}.

(** Returns serializer fields in the Swagger MODEL format.  A class is
    called to get an instance; either way the fields are those of the
    class.  [serializer_fields] is the function on an actual serializer,
    [_get_serializer_fields] adds the early return on [None]. *)
Definition serializer_fields (s : serializer) : SerializerData :=
  fold_left add_field (get_fields (serializer_class s)) empty_data.

Definition _get_serializer_fields (s : option serializer) : option SerializerData :=
  serializer_fields <$> s.

(** *** Operations *)

Definition get_introspector (api : Api) (apis : list Api) : Introspector :=
  let path := api_path api in
  let pattern := api_pattern api in
  let callback := api_callback api in
  if bool_decide (cb_module callback = "rest_framework.decorators")
  then WrappedAPIViewIntrospector callback path pattern
  else if cb_is_viewset callback
  then
    let patterns :=
      map api_pattern
          (filter (fun a => api_callback a = callback) apis) in
    ViewSetIntrospector callback path pattern patterns
  else APIViewIntrospector callback path pattern.

(** Returns serializer used in method; the serializer is ignored if the
    docstring says so. *)
Definition _get_method_serializer (method_inspector : MethodIntrospector)
  : option serializer :=
  let serializer := SClass <$> get_response_serializer_class method_inspector in
  let doc_parser := get_yaml_parser method_inspector in
  if bool_decide (is_Some (get_response_type doc_parser))
  then (* Custom response class detected *) None
  else if should_omit_serializer doc_parser then None
  else serializer.

Definition newline : string := String "010"%char "".

(** The name under which a custom response type is registered. *)
Definition response_type_name (view_inspector : Introspector)
    (method_inspector : MethodIntrospector) : string :=
  let view_name := cb_name (callback view_inspector) in
  let view_name := PyStr.remove_all "ViewSet" view_name in
  let view_name := PyStr.remove_all "APIView" view_name in
  let view_name := PyStr.remove_all "View" view_name in
  view_name
    +:+ PyStr.remove_all "_" (PyStr.title (method method_inspector))
    +:+ "Response".

(** Returns response type for method, and the [explicit_response_types]
    the call leaves behind: a custom type found in the docstring is
    registered there. *)
Definition _get_method_response_type (doc_parser : YamlParser)
    (serializer : option serializer) (view_inspector : Introspector)
    (method_inspector : MethodIntrospector)
    (explicit_response_types : gmap string value)
  : option string * gmap string value :=
  match get_response_type doc_parser with
  | Some response_type =>
      (* Register class in scope *)
      let response_type_name := response_type_name view_inspector method_inspector in
      (Some response_type_name,
       <[response_type_name :=
           VDict [("id", VStr response_type_name);
                  ("properties", response_type)]]> explicit_response_types)
  | None =>
      let serializer_name := get_serializer_name serializer in
      (match serializer_name with
       | Some n => Some n
       | None => None
       end, explicit_response_types)
  end.

(** The body of the loop of [get_operations] for a method introspector that
    is not skipped. *)
Definition operation_of (introspector : Introspector)
    (method_introspector : MethodIntrospector)
    (explicit_response_types : gmap string value)
  : list (string * value) * gmap string value :=
  let doc_parser := get_yaml_parser method_introspector in
  let serializer := _get_method_serializer method_introspector in
  let '(response_type, explicit_response_types) :=
    _get_method_response_type doc_parser serializer introspector
      method_introspector explicit_response_types in
  let operation := [
    ("method", VStr (get_http_method method_introspector));
    ("summary", get_summary method_introspector);
    ("nickname", get_nickname method_introspector);
    ("notes", VStr (get_notes method_introspector));
    ("type", value_of_opt_string response_type)
  ] in
  let operation :=
    match yaml_error doc_parser with
    | Some err =>
        Dict.set "notes"
          (VStr (get_notes method_introspector
                   +:+ "<pre>YAMLError:" +:+ newline +:+ " " +:+ err +:+ "</pre>"))
          operation
    | None => operation
    end in
  let response_messages := get_response_messages doc_parser in
  let parameters := discover_parameters doc_parser in
  let operation :=
    match parameters with
    | [] => operation
    | _ :: _ => Dict.set "parameters" (VList parameters) operation
    end in
  let operation :=
    match response_messages with
    | [] => operation
    | _ :: _ => Dict.set "responseMessages" (VList response_messages) operation
    end in
  (operation, explicit_response_types).

(** [continue] in the loop of [get_operations]. *)
Definition skipped (method_introspector : MethodIntrospector) : bool :=
  negb (is_BaseMethodIntrospector method_introspector)
  || bool_decide (get_http_method method_introspector = "OPTIONS").

Definition get_operations_step (introspector : Introspector)
    (acc : list value * gmap string value)
    (method_introspector : MethodIntrospector) : list value * gmap string value :=
  let '(operations, explicit_response_types) := acc in
  if skipped method_introspector then acc
  else
    let '(operation, explicit_response_types) :=
      operation_of introspector method_introspector explicit_response_types in
    (operations ++ [VDict operation], explicit_response_types).

(** Returns docs for the allowed methods of an API endpoint. *)
Definition get_operations (api : Api) (apis : option (list Api))
    (explicit_response_types : gmap string value)
  : list value * gmap string value :=
  let apis := match apis with None => [api] | Some apis => apis end in
  let introspector := get_introspector api apis in
  fold_left (get_operations_step introspector)
    (method_introspectors introspector) ([], explicit_response_types).

Definition generate_step (apis : list Api)
    (acc : list value * gmap string value) (api : Api)
  : list value * gmap string value :=
  let '(api_docs, explicit_response_types) := acc in
  let '(operations, explicit_response_types) :=
    get_operations api (Some apis) explicit_response_types in
  (api_docs ++ [VDict [
      ("description", get_view_description (api_callback api));
      ("path", VStr (api_path api));
      ("operations", VList operations)]],
   explicit_response_types).

(** Returns documentation for a list of APIs. *)
Definition generate (apis : list Api) (explicit_response_types : gmap string value)
  : list value * gmap string value :=
  fold_left (generate_step apis) apis ([], explicit_response_types).

(** *** Sets of serializers

    A Python set is kept as the list of its members.  Classes are members
    by identity, compared here by structure.  Serializer instances are
    members by identity as well, and every [get_fields()] call makes new
    field objects, so an instance is kept as an [obj], with its
    identity. *)

Definition set_add {A : Type} `{EqDecision A} (x : A) (s : list A) : list A :=
  if bool_decide (x ∈ s) then s else s ++ [x].

Definition set_update {A : Type} `{EqDecision A} (s new : list A) : list A :=
  fold_left (fun s x => set_add x s) new s.

(** [o in s], [s.add(o)] and [s.update(new)] for sets of objects. *)
Definition obj_in (o : obj) (s : list obj) : bool := bool_decide (o.1 ∈ s.*1).

Definition obj_add (o : obj) (s : list obj) : list obj :=
  if obj_in o s then s else s ++ [o].

Definition obj_update (s new : list obj) : list obj :=
  fold_left (fun s o => obj_add o s) new s.

(** Returns a set of serializer classes for a provided list of APIs. *)
Definition _get_serializer_set (apis : list Api) : list serializer :=
  fold_left
    (fun serializers api =>
       let introspector := get_introspector api apis in
       fold_left
         (fun serializers method_introspector =>
            match _get_method_serializer method_introspector with
            | Some serializer => set_add serializer serializers
            | None => serializers
            end)
         (method_introspectors introspector) serializers)
    apis [].

(** [get_thing(field, lambda f: f)]: the child of a [ListSerializer] under
    rest_framework 3, the field itself otherwise.  The child is the object
    made right after its list. *)
Definition get_thing (field : obj) : obj :=
  if version_ge_3 && is_ListSerializer field.2
  then (S field.1, SInstance (serializer_class field.2))
  else field.

(** [get_thing(field, lambda f: f.__class__)] *)
Definition get_thing_class (field : obj) : SerializerClass :=
  serializer_class (get_thing field).2.

(** [for name, field in fields.items()] in [_find_field_serializers], over
    the field objects [c().get_fields()] made: a field takes two numbers,
    [oid] for the object and the next one for the child a [ListSerializer]
    has.  [find] stands for the recursive call
    [_find_field_serializers((cls,), serializers_set)] on the class of the
    field, [next] is the number of the next object to be made. *)
Definition each_field
    (find : SerializerClass -> list obj -> nat -> list obj * nat)
    (found_serializers : list obj)
  : list (string * field) -> nat -> list obj -> nat -> list obj * nat :=
  fix loop (fields : list (string * field)) (oid : nat)
      (serializers_set : list obj) (next : nat) {struct fields} :=
    match fields with
    | [] => (serializers_set, next)
    | (_, fld) :: rest =>
        match kind fld with
        | Plain => loop rest (2 + oid) serializers_set next
        | Serializer many cls =>
            let field := (oid, field_object many cls) in
            let serializers_set := obj_add (get_thing field) serializers_set in
            if negb (obj_in field found_serializers)
            then
              let '(found, next) :=
                find cls (* get_thing_class field *) serializers_set next in
              loop rest (2 + oid) (obj_update serializers_set found) next
            else loop rest (2 + oid) serializers_set next
        end
    end.

(** The body of [for serializer in serializers] in
    [_find_field_serializers], for a serializer class [c]:
    [fields = c().get_fields()], then the loop over the fields.  A
    recursive call works on one class, with a new, empty
    [serializers_set]. *)
Fixpoint find_in_class (c : SerializerClass) (found_serializers : list obj)
    (serializers_set : list obj) (next : nat) {struct c} : list obj * nat :=
  match c with
  | Class _ fields =>
      each_field
        (fun cls found_serializers next => find_in_class cls found_serializers [] next)
        found_serializers fields next serializers_set (2 * length fields + next)
  end.

(** Returns set of serializers discovered from fields. *)
Definition _find_field_serializers (serializers : list SerializerClass)
    (found_serializers : list obj) (next : nat) : list obj * nat :=
  fold_left
    (fun '(serializers_set, next) c =>
       find_in_class c found_serializers serializers_set next)
    serializers ([], next).

(** *** The walk when a class makes its fields itself

    [serializer().get_fields()] is a method call: a class can override it
    and return more than its declared fields, a serializer of its own class
    for one (a comment with its replies).  Below, [fields c] is what
    [c().get_fields()] returns, and [depth] is the number of nested calls of
    [_find_field_serializers] the interpreter still allows: [None] is the
    [RecursionError] raised when none is left. *)

(** [for name, field in fields.items()], as [each_field], around a
    recursive call that may fail. *)
Definition each_field_bounded
    (find : SerializerClass -> list obj -> nat -> option (list obj * nat))
    (found_serializers : list obj)
  : list (string * field) -> nat -> list obj -> nat -> option (list obj * nat) :=
  fix loop (fields : list (string * field)) (oid : nat)
      (serializers_set : list obj) (next : nat) {struct fields} :=
    match fields with
    | [] => Some (serializers_set, next)
    | (_, fld) :: rest =>
        match kind fld with
        | Plain => loop rest (2 + oid) serializers_set next
        | Serializer many cls =>
            let field := (oid, field_object many cls) in
            let serializers_set := obj_add (get_thing field) serializers_set in
            if negb (obj_in field found_serializers)
            then
              match find cls (* get_thing_class field *) serializers_set next with
              | Some (found, next) =>
                  loop rest (2 + oid) (obj_update serializers_set found) next
              | None => None
              end
            else loop rest (2 + oid) serializers_set next
        end
    end.

(** The body of [for serializer in serializers] for the class [c], in a
    call that may nest [depth] calls, itself included. *)
Fixpoint find_in_class_bounded (fields : SerializerClass -> list (string * field))
    (depth : nat) (c : SerializerClass) (found_serializers : list obj)
    (serializers_set : list obj) (next : nat) {struct depth}
  : option (list obj * nat) :=
  match depth with
  | 0 => None
  | S depth =>
      each_field_bounded
        (fun cls found_serializers next =>
           find_in_class_bounded fields depth cls found_serializers [] next)
        found_serializers (fields c) next serializers_set
        (2 * length (fields c) + next)
  end.

(** [_find_field_serializers(serializers, found_serializers)] within
    [depth] nested calls. *)
Definition _find_field_serializers_bounded
    (fields : SerializerClass -> list (string * field)) (depth : nat)
    (serializers : list SerializerClass) (found_serializers : list obj) (next : nat)
  : option (list obj * nat) :=
  match depth with
  | 0 => None
  | S _ =>
      fold_left
        (fun acc c =>
           match acc with
           | Some (serializers_set, next) =>
               find_in_class_bounded fields depth c found_serializers
                 serializers_set next
           | None => None
           end)
        serializers (Some ([], next))
  end.

(** *** Models *)

(** The class attribute [fields_serializers]: an empty set that nothing
    fills. *)
Definition fields_serializers : gmap string value := ∅.

(** The body of [for serializer in serializers] in [get_models]. *)
Definition register_models (models : gmap string value) (serializer : serializer)
  : gmap string value :=
  let data := serializer_fields serializer in
  (* Register 2 models with different subset of properties suitable
     for data reading and writing. *)
  let serializer_name := serializer_name serializer in
  (* Writing: no readonly fields *)
  let w_name := "Write" +:+ serializer_name in
  let w_properties :=
    Dict.of_items
      (filter (fun kv => negb (str_in kv.1 (data_read_only data)))
              (data_fields data)) in
  let models :=
    <[w_name := VDict [
        ("id", VStr w_name);
        ("required",
         VList (VStr <$> filter (fun i => str_in i (Dict.keys w_properties))
                                (data_required data)));
        ("properties", VDict w_properties)]]> models in
  (* Reading: no write_only fields *)
  let r_name := serializer_name in
  let r_properties :=
    Dict.of_items
      (filter (fun kv => negb (str_in kv.1 (data_write_only data)))
              (data_fields data)) in
  <[r_name := VDict [
      ("id", VStr r_name);
      ("required", VList (VStr <$> Dict.keys r_properties));
      ("properties", VDict r_properties)]]> models.

(** The members of the set [serializers] of [get_models]: the classes the
    methods use, the explicit ones, and the instances found in fields. *)
Definition model_serializers (apis : list Api) : list serializer :=
  let serializers := _get_serializer_set apis in
  let serializers := set_update serializers (SClass <$> explicit_serializers) in
  let found :=
    (_find_field_serializers (serializer_class <$> serializers) [] 0).1 in
  serializers ++ found.*2.

(** The first three statements of [get_models], which build the set
    [serializers], with the walk over the fields [fields] gives and within
    [depth] nested calls. *)
Definition model_serializers_bounded
    (fields : SerializerClass -> list (string * field)) (depth : nat)
    (apis : list Api) : option (list serializer) :=
  let serializers := _get_serializer_set apis in
  let serializers := set_update serializers (SClass <$> explicit_serializers) in
  match _find_field_serializers_bounded fields depth
          (serializer_class <$> serializers) [] 0 with
  | Some (found, _) => Some (serializers ++ found.*2)
  | None => None
  end.

(** [models] once the loop of [get_models] has run over [serializers]. *)
Definition models_after (serializers : list serializer) : gmap string value :=
  fold_left register_models serializers ∅.

(** [get_models] when the loop runs over the set in the order
    [serializers]; [models.update(d)] lets the entries of [d] win. *)
Definition get_models_over (serializers : list serializer)
    (explicit_response_types : gmap string value) : gmap string value :=
  let models := models_after serializers in
  let models := explicit_response_types ∪ models in
  fields_serializers ∪ models.

(** Builds a list of Swagger 'models'.  A set is run over in an order of
    its own; the model takes the order of [model_serializers], and the
    properties below that depend on the loop are stated for every order. *)
Definition get_models (apis : list Api)
    (explicit_response_types : gmap string value) : gmap string value :=
  get_models_over (model_serializers apis) explicit_response_types.

(** *** Notions the properties are stated with *)

(** [nests c d]: a field of [c] is a serializer of class [d], list-wrapped
    or not. *)
Definition nests (c d : SerializerClass) : Prop :=
  exists name fld many, (name, fld) ∈ get_fields c /\ kind fld = Serializer many d.

(** A method of one of the [apis] uses the serializer [s]. *)
Definition used_by_method (apis : list Api) (s : serializer) : Prop :=
  exists api m,
    api ∈ apis
    /\ m ∈ method_introspectors (get_introspector api apis)
    /\ _get_method_serializer m = Some s.

(** What a walk that numbers its objects from [next] on adds to
    [serializers_set]: the result is the set followed by new objects,
    numbered from [next] up to the new counter, no number twice, and among
    them there is an instance of every class in [reach]. *)
Definition walk_adds (reach : SerializerClass -> Prop)
    (serializers_set : list obj) (next : nat) (result : list obj * nat) : Prop :=
  exists new,
    result.1 = serializers_set ++ new
    /\ next <= result.2
    /\ NoDup new.*1
    /\ (forall o, o ∈ new -> next <= o.1 < result.2)
    /\ (forall d, reach d -> exists o, o ∈ new /\ o.2 = SInstance d).

(** [nested_in c d]: [d] is the class of a serializer field of [c], or of a
    field of such a class, and so on. *)
Definition nested_in (c d : SerializerClass) : Prop :=
  exists cls, nests c cls /\ rtc nests cls d.


(** Every entry of [explicit_response_types] is a model whose 'id' is its
    key, as [_get_method_response_type] registers them. *)
Definition registered_types_ok (explicit_response_types : gmap string value) : Prop :=
  forall name model,
    explicit_response_types !! name = Some model ->
    exists response_type,
      model = VDict [("id", VStr name); ("properties", response_type)].

(** The name a serializer field of class [cls] is typed with: the name of
    the class, after "Write" for a write-only field. *)
Definition type_name (fld : field) (cls : SerializerClass) : string :=
  if getattr_false (write_only (attrs fld))
  then "Write" +:+ class_name cls
  else class_name cls.

(** The schema item of a field, as [data['fields']] keeps it. *)
Definition schema_item (item : string * field) : string * value :=
  (item.1, VDict (field_schema item.2)).

(** ** Dictionaries kept as lists of items *)

Lemma Dict_get_set {A : Type} (k k' : string) (v : A) (d : list (string * A)) :
  Dict.get k (Dict.set k' v d) = if decide (k = k') then Some v else Dict.get k d.
Proof.
  induction d as [| [k0 v0] d IH]; simpl.
  - destruct (decide (k = k')); reflexivity.
  - destruct (decide (k' = k0)) as [-> | Hne]; simpl.
    + destruct (decide (k = k0)); reflexivity.
    + rewrite IH. destruct (decide (k = k0)) as [-> | ?]; [| reflexivity].
      destruct (decide (k0 = k')); congruence.
Qed.

Lemma Dict_get_set_eq {A : Type} (k : string) (v : A) (d : list (string * A)) :
  Dict.get k (Dict.set k v d) = Some v.
Proof. rewrite Dict_get_set. destruct (decide (k = k)); congruence. Qed.

Lemma Dict_get_set_ne {A : Type} (k k' : string) (v : A) (d : list (string * A)) :
  k <> k' -> Dict.get k (Dict.set k' v d) = Dict.get k d.
Proof. intros Hne. rewrite Dict_get_set. destruct (decide (k = k')); congruence. Qed.

Lemma Dict_get_is_Some {A : Type} (k : string) (d : list (string * A)) :
  is_Some (Dict.get k d) <-> k ∈ Dict.keys d.
Proof.
  unfold Dict.keys. induction d as [| [k0 v0] d IH]; simpl.
  - split; [intros [x Hx]; discriminate | intros H; inversion H].
  - rewrite elem_of_cons. destruct (decide (k = k0)) as [-> | Hne].
    + split; [intros _; left; reflexivity | intros _; eexists; reflexivity].
    + rewrite IH. split; [intros H; right; exact H | intros [H | H]; [contradiction | exact H]].
Qed.

Lemma Dict_get_None {A : Type} (k : string) (d : list (string * A)) :
  Dict.get k d = None <-> k ∉ Dict.keys d.
Proof.
  rewrite <- Dict_get_is_Some, eq_None_not_Some. reflexivity.
Qed.

Lemma Dict_get_elem_of {A : Type} (k : string) (v : A) (d : list (string * A)) :
  NoDup (Dict.keys d) -> (k, v) ∈ d -> Dict.get k d = Some v.
Proof.
  unfold Dict.keys. induction d as [| [k0 v0] d IH]; simpl; intros Hnd Hin.
  - inversion Hin.
  - apply NoDup_cons in Hnd as [Hk0 Hnd]. apply elem_of_cons in Hin as [Heq | Hin].
    + injection Heq as -> ->. destruct (decide (k0 = k0)); congruence.
    + destruct (decide (k = k0)) as [-> | Hne]; [| apply IH; assumption].
      exfalso. apply Hk0. apply (list_elem_of_fmap_2 fst) in Hin. exact Hin.
Qed.

Lemma Dict_set_fresh {A : Type} (k : string) (v : A) (d : list (string * A)) :
  k ∉ Dict.keys d -> Dict.set k v d = d ++ [(k, v)].
Proof.
  unfold Dict.keys. induction d as [| [k0 v0] d IH]; simpl; intros Hk.
  - reflexivity.
  - apply not_elem_of_cons in Hk as [Hne Hk].
    destruct (decide (k = k0)); [contradiction |]. rewrite IH by assumption. reflexivity.
Qed.

Lemma Dict_of_items_from {A : Type} (items acc : list (string * A)) :
  NoDup (Dict.keys (acc ++ items)) ->
  fold_left (fun d kv => Dict.set kv.1 kv.2 d) items acc = acc ++ items.
Proof.
  unfold Dict.keys. revert acc. induction items as [| [k v] items IH]; intros acc Hnd; simpl.
  - rewrite app_nil_r. reflexivity.
  - assert (Hk : k ∉ Dict.keys acc).
    { unfold Dict.keys. rewrite map_app in Hnd. apply NoDup_app in Hnd as (_ & Hdisj & _).
      intros Hin. apply (Hdisj k Hin). simpl. left. }
    rewrite Dict_set_fresh by exact Hk.
    rewrite IH; rewrite <- app_assoc; [reflexivity | exact Hnd].
Qed.

(** [OrderedDict(items)] of items with distinct keys is the items. *)
Lemma Dict_of_items_NoDup {A : Type} (items : list (string * A)) :
  NoDup (Dict.keys items) -> Dict.of_items items = items.
Proof. intros Hnd. unfold Dict.of_items. rewrite Dict_of_items_from; [reflexivity | exact Hnd]. Qed.

Lemma str_in_true (x : string) (l : list string) : str_in x l = true <-> x ∈ l.
Proof. unfold str_in. apply bool_decide_eq_true. Qed.

Lemma str_in_false (x : string) (l : list string) : str_in x l = false <-> x ∉ l.
Proof. unfold str_in. apply bool_decide_eq_false. Qed.

(** ** The data [_get_serializer_fields] collects *)

Lemma keys_schema_items (fs : list (string * field)) :
  Dict.keys (schema_item <$> fs) = fs.*1.
Proof.
  unfold Dict.keys. induction fs as [| [n f] fs IH]; simpl; [reflexivity |].
  f_equal. exact IH.
Qed.

Lemma fold_add_field (fs : list (string * field)) (data : SerializerData) :
  NoDup (Dict.keys (data_fields data) ++ fs.*1) ->
  fold_left add_field fs data =
    {| data_fields := data_fields data ++ (schema_item <$> fs);
       data_required :=
         data_required data
           ++ (filter (fun nf => getattr_false (required (attrs nf.2))) fs).*1;
       data_write_only :=
         data_write_only data
           ++ (filter (fun nf => getattr_false (write_only (attrs nf.2))) fs).*1;
       data_read_only :=
         data_read_only data
           ++ (filter (fun nf => getattr_false (read_only (attrs nf.2))) fs).*1 |}.
Proof.
  revert data. induction fs as [| [n f] fs IH]; intros data Hnd; simpl.
  - rewrite !app_nil_r. destruct data; reflexivity.
  - assert (Hn : n ∉ Dict.keys (data_fields data)).
    { apply NoDup_app in Hnd as (_ & Hdisj & _). intros Hin.
      apply (Hdisj n Hin). simpl. left. }
    rewrite IH; simpl.
    + rewrite Dict_set_fresh by exact Hn. rewrite !filter_cons. simpl.
      destruct (getattr_false (required (attrs f)));
        destruct (getattr_false (write_only (attrs f)));
        destruct (getattr_false (read_only (attrs f)));
        simpl; rewrite <- ?app_assoc; reflexivity.
    + rewrite Dict_set_fresh by exact Hn. unfold Dict.keys in *.
      rewrite map_app. simpl. rewrite <- app_assoc. exact Hnd.
Qed.

(** With distinct field names, the data is the fields' schemas in order and
    the names of the write-only, read-only and required fields. *)
Lemma serializer_fields_eq (s : serializer) :
  let fs := get_fields (serializer_class s) in
  NoDup fs.*1 ->
  serializer_fields s =
    {| data_fields := schema_item <$> fs;
       data_required := (filter (fun nf => getattr_false (required (attrs nf.2))) fs).*1;
       data_write_only := (filter (fun nf => getattr_false (write_only (attrs nf.2))) fs).*1;
       data_read_only := (filter (fun nf => getattr_false (read_only (attrs nf.2))) fs).*1 |}.
Proof.
  intros fs Hnd. unfold serializer_fields. fold fs.
  rewrite fold_add_field; [reflexivity | exact Hnd].
Qed.

Lemma filter_fmap_schema (Q : string * value -> bool) (fs : list (string * field)) :
  filter (fun kv => Q kv) (schema_item <$> fs)
  = schema_item <$> filter (fun nf => Q (schema_item nf)) fs.
Proof.
  induction fs as [| nf fs IH]; [reflexivity |].
  rewrite fmap_cons, !filter_cons, IH.
  destruct (Q (schema_item nf)); reflexivity.
Qed.

Lemma filter_ext_elem_of {A : Type} (P Q : A -> bool) (l : list A) :
  (forall x, x ∈ l -> P x = Q x) ->
  filter (fun x => P x) l = filter (fun x => Q x) l.
Proof.
  induction l as [| a l IH]; intros Hext; [reflexivity |].
  rewrite !filter_cons, IH.
  - rewrite (Hext a) by left. reflexivity.
  - intros x Hx. apply Hext. right. exact Hx.
Qed.

Lemma unique_field (fs : list (string * field)) (n : string) (f f' : field) :
  NoDup fs.*1 -> (n, f) ∈ fs -> (n, f') ∈ fs -> f = f'.
Proof.
  induction fs as [| [n0 f0] fs IH]; simpl; intros Hnd Hf Hf'.
  - inversion Hf.
  - apply NoDup_cons in Hnd as [Hn0 Hnd].
    apply elem_of_cons in Hf as [Hf | Hf]; apply elem_of_cons in Hf' as [Hf' | Hf'].
    + congruence.
    + injection Hf as -> ->. exfalso. apply Hn0.
      apply (list_elem_of_fmap_2 fst) in Hf'. exact Hf'.
    + injection Hf' as -> ->. exfalso. apply Hn0.
      apply (list_elem_of_fmap_2 fst) in Hf. exact Hf.
    + apply IH; assumption.
Qed.

(** Membership of a field's name among the names of the fields that have
    an attribute is having the attribute, as names are distinct. *)
Lemma name_in_marked (P : field -> bool) (fs : list (string * field))
    (n : string) (f : field) :
  NoDup fs.*1 -> (n, f) ∈ fs ->
  str_in n (filter (fun nf => P nf.2) fs).*1 = P f.
Proof.
  intros Hnd Hin. destruct (P f) eqn:HP.
  - apply str_in_true. apply (list_elem_of_fmap_2' fst _ (n, f)); [| reflexivity].
    apply list_elem_of_filter. split; [simpl; rewrite HP; exact I | exact Hin].
  - apply str_in_false. intros Hn.
    apply list_elem_of_fmap in Hn as ([n' f'] & Heq & Hin'). simpl in Heq. subst n'.
    apply list_elem_of_filter in Hin' as [HP' Hin']. simpl in HP'.
    rewrite <- (unique_field fs n f f' Hnd Hin Hin') in HP'.
    rewrite HP in HP'. exact HP'.
Qed.

(** Dropping the schema items whose name is marked is dropping the marked
    fields. *)
Lemma properties_without (P : field -> bool) (fs : list (string * field)) :
  NoDup fs.*1 ->
  Dict.of_items
    (filter (fun kv => negb (str_in kv.1 (filter (fun nf => P nf.2) fs).*1))
            (schema_item <$> fs))
  = schema_item <$> filter (fun nf => negb (P nf.2)) fs.
Proof.
  intros Hnd.
  rewrite (filter_fmap_schema
             (fun kv => negb (str_in kv.1 (filter (fun nf => P nf.2) fs).*1))).
  rewrite (filter_ext_elem_of _ (fun nf => negb (P nf.2))).
  - apply Dict_of_items_NoDup. rewrite keys_schema_items.
    apply NoDup_fmap_fst.
    + intros n f f' Hf Hf'. apply list_elem_of_filter in Hf as [_ Hf].
      apply list_elem_of_filter in Hf' as [_ Hf'].
      exact (unique_field fs n f f' Hnd Hf Hf').
    + apply NoDup_filter. eapply NoDup_fmap_1. exact Hnd.
  - intros [n f] Hin. simpl. rewrite (name_in_marked P fs n f Hnd Hin). reflexivity.
Qed.

Lemma required_in_properties (P : field -> bool) (fs : list (string * field)) :
  NoDup fs.*1 ->
  filter
    (fun i => str_in i (Dict.keys (schema_item <$> filter (fun nf => negb (P nf.2)) fs)))
    (filter (fun nf => getattr_false (required (attrs nf.2))) fs).*1
  = (filter (fun nf => getattr_false (required (attrs nf.2)) && negb (P nf.2)) fs).*1.
Proof.
  intros Hnd. rewrite keys_schema_items.
  assert (Hin : forall nf, nf ∈ fs ->
            str_in nf.1 (filter (fun nf => negb (P nf.2)) fs).*1 = negb (P nf.2)).
  { intros [n f] Hnf. simpl.
    exact (name_in_marked (fun f => negb (P f)) fs n f Hnd Hnf). }
  clear Hnd. revert Hin.
  generalize ((filter (fun nf => negb (P nf.2)) fs).*1) as kept.
  intros kept. induction fs as [| [n f] fs IH]; intros Hin; [reflexivity |].
  rewrite !filter_cons. csimpl.
  assert (Hn := Hin (n, f) ltac:(left)). simpl in Hn.
  assert (IH' := IH (fun nf Hnf => Hin nf ltac:(right; exact Hnf))).
  destruct (getattr_false (required (attrs f))); csimpl.
  - rewrite filter_cons, Hn. destruct (P f); csimpl; rewrite IH'; reflexivity.
  - exact IH'.
Qed.

(** ** The two models of a serializer *)

Lemma length_append (a b : string) :
  String.length (a +:+ b) = String.length a + String.length b.
Proof. induction a as [| c a IH]; simpl; [reflexivity | rewrite IH; reflexivity]. Qed.

(** The write name of a serializer is never its read name. *)
Lemma Write_name_ne (n : string) : "Write" +:+ n <> n.
Proof.
  intros Heq. apply (f_equal String.length) in Heq.
  rewrite length_append in Heq. simpl in Heq. lia.
Qed.

Lemma models_after_snoc (done : list serializer) (s : serializer) :
  models_after (done ++ [s]) = register_models (models_after done) s.
Proof. unfold models_after. rewrite fold_left_app. reflexivity. Qed.

(** One turn of the loop of [get_models], for fields with distinct names,
    in terms of the fields of the serializer. *)
Lemma register_models_eq (models : gmap string value) (s : serializer) :
  let fs := get_fields (serializer_class s) in
  let name := serializer_name s in
  let readable nf := negb (getattr_false (write_only (attrs nf.2))) in
  let writable nf := negb (getattr_false (read_only (attrs nf.2))) in
  NoDup fs.*1 ->
  register_models models s =
    <[name := VDict [
        ("id", VStr name);
        ("required", VList (VStr <$> (filter (fun nf => readable nf) fs).*1));
        ("properties", VDict (schema_item <$> filter (fun nf => readable nf) fs))]]>
      (<["Write" +:+ name := VDict [
          ("id", VStr ("Write" +:+ name));
          ("required",
           VList (VStr <$>
                    (filter (fun nf => getattr_false (required (attrs nf.2))
                                       && writable nf) fs).*1));
          ("properties", VDict (schema_item <$> filter (fun nf => writable nf) fs))]]>
         models).
Proof.
  intros fs name readable writable Hnd. unfold register_models.
  rewrite (serializer_fields_eq s Hnd). cbn [data_fields data_required
    data_write_only data_read_only]. fold fs. fold name.
  rewrite (properties_without (fun f => getattr_false (read_only (attrs f))) fs Hnd).
  rewrite (properties_without (fun f => getattr_false (write_only (attrs f))) fs Hnd).
  rewrite (required_in_properties (fun f => getattr_false (read_only (attrs f))) fs Hnd).
  rewrite keys_schema_items. reflexivity.
Qed.

(** A turn of the loop sets two entries, the same whatever [models] is. *)
Lemma register_models_shape (s : serializer) :
  exists w r,
    forall models,
      register_models models s =
        <[serializer_name s := VDict (("id", VStr (serializer_name s)) :: r)]>
          (<["Write" +:+ serializer_name s :=
               VDict (("id", VStr ("Write" +:+ serializer_name s)) :: w)]> models).
Proof. eexists _, _. intros models. reflexivity. Qed.

Lemma register_models_lookup_same (models models' : gmap string value)
    (s : serializer) (k : string) :
  k = serializer_name s \/ k = "Write" +:+ serializer_name s ->
  register_models models s !! k = register_models models' s !! k.
Proof.
  intros Hk. destruct (register_models_shape s) as (w & r & Hshape). rewrite !Hshape.
  destruct Hk as [-> | ->].
  - rewrite !lookup_insert_eq. reflexivity.
  - rewrite !(lookup_insert_ne _ (serializer_name s))
      by (apply not_eq_sym, Write_name_ne).
    rewrite !lookup_insert_eq. reflexivity.
Qed.

Lemma register_models_lookup_other (models : gmap string value)
    (x : serializer) (k : string) :
  serializer_name x <> k -> "Write" +:+ serializer_name x <> k ->
  register_models models x !! k = models !! k.
Proof.
  intros Hr Hw. destruct (register_models_shape x) as (w & r & Hshape). rewrite Hshape.
  rewrite lookup_insert_ne by exact Hr. apply lookup_insert_ne. exact Hw.
Qed.

(** The models of a serializer are those of its class. *)
Lemma register_models_class (models : gmap string value) (x s : serializer) :
  serializer_class x = serializer_class s ->
  register_models models x = register_models models s.
Proof.
  intros Hc. unfold register_models, serializer_fields, serializer_name.
  rewrite Hc. reflexivity.
Qed.

(** The later turns of the loop leave the two models of [s] as they are when
    each is for a serializer of the class of [s], or for one whose two names
    are not the names of [s]. *)
Lemma fold_register_models_stable (s : serializer) (rest : list serializer) :
  (forall x, x ∈ rest ->
             serializer_class x = serializer_class s
             \/ (serializer_name x <> serializer_name s
                 /\ serializer_name x <> "Write" +:+ serializer_name s
                 /\ "Write" +:+ serializer_name x <> serializer_name s)) ->
  forall models,
    (forall k, k = serializer_name s \/ k = "Write" +:+ serializer_name s ->
               models !! k = register_models ∅ s !! k) ->
    forall k, k = serializer_name s \/ k = "Write" +:+ serializer_name s ->
              fold_left register_models rest models !! k = register_models ∅ s !! k.
Proof.
  induction rest as [| x rest IH]; intros Hsafe models Hagree k Hk; cbn [fold_left].
  - apply Hagree. exact Hk.
  - apply IH; [intros y Hy; apply Hsafe; right; exact Hy | | exact Hk].
    intros k' Hk'. destruct (Hsafe x ltac:(left)) as [Hc | (Hn & Hnw & Hwn)].
    + rewrite (register_models_class models x s Hc).
      apply register_models_lookup_same. exact Hk'.
    + rewrite register_models_lookup_other; [apply Hagree; exact Hk' | |].
      * destruct Hk' as [-> | ->]; assumption.
      * destruct Hk' as [-> | ->]; [exact Hwn |].
        intros Heq. simpl in Heq. injection Heq as Heq. contradiction.
Qed.

(** C1. For every serializer it processes, [get_models] registers two model
    entries: right after the loop turn for [s], [models] has under
    ['Write' + name] a model whose properties are the schemas of the fields
    of [s] without the read-only ones, and under [name] a model whose
    properties are the schemas of the fields without the write-only ones
    (the field names of a serializer being distinct, as the keys of a
    dictionary are).  The two entries are in the dictionary [get_models]
    returns when no later turn and no registered response type takes one of
    the two names for something else. *)
Theorem get_models_registers_write_and_read_models
    (done : list serializer) (s : serializer) :
  let fs := get_fields (serializer_class s) in
  let name := serializer_name s in
  let models := models_after (done ++ [s]) in
  NoDup fs.*1 ->
  (exists w,
      models !! ("Write" +:+ name) = Some (VDict w)
      /\ Dict.get "id" w = Some (VStr ("Write" +:+ name))
      /\ Dict.get "properties" w =
           Some (VDict (schema_item <$>
                  filter (fun nf => negb (getattr_false (read_only (attrs nf.2)))) fs)))
  /\ (exists r,
        models !! name = Some (VDict r)
        /\ Dict.get "id" r = Some (VStr name)
        /\ Dict.get "properties" r =
             Some (VDict (schema_item <$>
                    filter (fun nf => negb (getattr_false (write_only (attrs nf.2)))) fs)))
  /\ (forall rest st,
        (forall x, x ∈ rest ->
                   serializer_class x = serializer_class s
                   \/ (serializer_name x <> name
                       /\ serializer_name x <> "Write" +:+ name
                       /\ "Write" +:+ serializer_name x <> name)) ->
        st !! name = None -> st !! ("Write" +:+ name) = None ->
        get_models_over (done ++ s :: rest) st !! name = models !! name
        /\ get_models_over (done ++ s :: rest) st !! ("Write" +:+ name)
           = models !! ("Write" +:+ name)).
Proof.
  intros fs name models Hnd. subst models. split; [| split].
  - rewrite models_after_snoc, (register_models_eq _ s Hnd). fold fs name.
    eexists. split.
    + rewrite lookup_insert_ne by (apply not_eq_sym, Write_name_ne).
      apply lookup_insert_eq.
    + split; reflexivity.
  - rewrite models_after_snoc, (register_models_eq _ s Hnd). fold fs name.
    eexists. split; [apply lookup_insert_eq | split; reflexivity].
  - intros rest st Hsafe Hr Hw.
    assert (Hfinal : forall k, k = name \/ k = "Write" +:+ name ->
              get_models_over (done ++ s :: rest) st !! k
              = models_after (done ++ [s]) !! k).
    { intros k Hk. unfold get_models_over, fields_serializers.
      rewrite (left_id_L ∅ (∪)), lookup_union_r by (destruct Hk as [-> | ->]; assumption).
      rewrite models_after_snoc. unfold models_after at 1.
      rewrite fold_left_app. cbn [fold_left].
      rewrite (fold_register_models_stable s rest Hsafe _) with (k := k).
      - apply register_models_lookup_same. exact Hk.
      - intros k' Hk'. apply register_models_lookup_same. exact Hk'.
      - exact Hk. }
    split; apply Hfinal; [left | right]; reflexivity.
Qed.

Lemma get_models_over_turn (done rest : list serializer) (s : serializer)
    (st : gmap string value) (k : string) :
  (forall x, x ∈ rest ->
             serializer_class x = serializer_class s
             \/ (serializer_name x <> serializer_name s
                 /\ serializer_name x <> "Write" +:+ serializer_name s
                 /\ "Write" +:+ serializer_name x <> serializer_name s)) ->
  k = serializer_name s \/ k = "Write" +:+ serializer_name s ->
  st !! k = None ->
  get_models_over (done ++ s :: rest) st !! k
  = register_models (models_after done) s !! k.
Proof.
  intros Hsafe Hk Hst. unfold get_models_over, fields_serializers.
  rewrite (left_id_L ∅ (∪)), lookup_union_r by exact Hst.
  unfold models_after at 1. rewrite fold_left_app. cbn [fold_left].
  rewrite (fold_register_models_stable s rest Hsafe _) with (k := k).
  - apply register_models_lookup_same. exact Hk.
  - intros k' Hk'. apply register_models_lookup_same. exact Hk'.
  - exact Hk.
Qed.

(** C8. In the dictionary [get_models] returns, with the set of serializers
    run over in any order [done ++ s :: rest], the read model of the
    serializer [s] has as its 'required' list the list of all of its
    property names, the names of the fields that are not write-only whatever
    their own [required] flag, while the write model has as its 'required'
    list the names of the required fields that are not read-only, among its
    properties, the fields that are not read-only.  (The two models are
    those of [s] when no later serializer of another class and no registered
    response type takes one of the two names, the field names of a
    serializer being distinct, as the keys of a dictionary are.) *)
Theorem get_models_required_lists (done rest : list serializer) (s : serializer)
    (st : gmap string value) :
  let fs := get_fields (serializer_class s) in
  let name := serializer_name s in
  let models := get_models_over (done ++ s :: rest) st in
  NoDup fs.*1 ->
  (forall x, x ∈ rest ->
             serializer_class x = serializer_class s
             \/ (serializer_name x <> name
                 /\ serializer_name x <> "Write" +:+ name
                 /\ "Write" +:+ serializer_name x <> name)) ->
  st !! name = None -> st !! ("Write" +:+ name) = None ->
  (exists r properties,
      models !! name = Some (VDict r)
      /\ Dict.get "properties" r = Some (VDict properties)
      /\ Dict.get "required" r = Some (VList (VStr <$> Dict.keys properties))
      /\ Dict.keys properties =
           (filter (fun nf => negb (getattr_false (write_only (attrs nf.2)))) fs).*1)
  /\ (exists w properties,
        models !! ("Write" +:+ name) = Some (VDict w)
        /\ Dict.get "properties" w = Some (VDict properties)
        /\ Dict.keys properties =
             (filter (fun nf => negb (getattr_false (read_only (attrs nf.2)))) fs).*1
        /\ Dict.get "required" w =
             Some (VList (VStr <$>
                    (filter (fun nf => getattr_false (required (attrs nf.2))
                                       && negb (getattr_false (read_only (attrs nf.2))))
                            fs).*1))).
Proof.
  intros fs name models Hnd Hsafe Hr Hw. subst models.
  rewrite (get_models_over_turn done rest s st name Hsafe)
    by (first [left; reflexivity | exact Hr]).
  rewrite (get_models_over_turn done rest s st ("Write" +:+ name) Hsafe)
    by (first [right; reflexivity | exact Hw]).
  rewrite (register_models_eq _ s Hnd). fold fs name. split.
  - eexists _, _. split; [apply lookup_insert_eq |].
    split; [reflexivity |]. rewrite keys_schema_items. split; reflexivity.
  - eexists _, _. split.
    + rewrite lookup_insert_ne by (apply not_eq_sym, Write_name_ne).
      apply lookup_insert_eq.
    + split; [reflexivity |]. rewrite keys_schema_items. split; reflexivity.
Qed.

(** ** The schema of a field *)

Lemma version_lt_3_ge_3 : version_lt_3 = negb version_ge_3.
Proof.
  unfold version_lt_3, version_ge_3, String.ltb, String.leb.
  rewrite (String.compare_antisym VERSION "3.0.0").
  destruct (String.compare "3.0.0" VERSION); reflexivity.
Qed.

(** Under either version of rest_framework, [has_many] tells the
    list-wrapped serializer. *)
Lemma has_many_eq (many : bool) (cls : SerializerClass) :
  (if version_lt_3 then many else is_ListSerializer (field_object many cls)) = many.
Proof.
  rewrite version_lt_3_ge_3. unfold field_object.
  destruct version_ge_3, many; reflexivity.
Qed.

Lemma serializer_name_field_object (many : bool) (cls : SerializerClass) :
  serializer_name (field_object many cls) = class_name cls.
Proof. unfold serializer_name, field_object. destruct (version_ge_3 && many); reflexivity. Qed.

(** What [data['fields']] holds for a field of the serializer. *)
Lemma serializer_fields_get (s : serializer) (n : string) (fld : field) :
  NoDup (get_fields (serializer_class s)).*1 ->
  (n, fld) ∈ get_fields (serializer_class s) ->
  Dict.get n (data_fields (serializer_fields s)) = Some (VDict (field_schema fld)).
Proof.
  intros Hnd Hin. rewrite (serializer_fields_eq s Hnd). cbn [data_fields].
  apply Dict_get_elem_of.
  - rewrite keys_schema_items. exact Hnd.
  - apply (list_elem_of_fmap_2 schema_item) in Hin. exact Hin.
Qed.

(** The case analysis [field_schema] makes. *)
Ltac schema_cases fld :=
  unfold field_schema; cbv zeta;
  rewrite ?serializer_name_field_object;
  destruct (negb (is_None (max_val (attrs fld)))
            && bool_decide (get_data_type fld = "integer"));
  destruct (bool_decide (get_data_type fld = "multiple choice"));
  destruct (choices (attrs fld));
  destruct (kind fld) as [| many cls];
  try (unfold get_serializer_name; cbn [fmap option_fmap option_map];
       rewrite ?serializer_name_field_object, ?has_many_eq;
       destruct many;
       destruct (getattr_false (write_only (attrs fld)));
       destruct (bool_decide (is_Some (PRIMITIVES !! get_data_type fld)))).

Lemma field_schema_format (fld : field) :
  Dict.get "format" (field_schema fld) =
    Some (VStr (match PRIMITIVES !! get_data_type fld with
                | Some (first, _) => first
                | None => "string"
                end)).
Proof. schema_cases fld; reflexivity. Qed.

Lemma field_schema_type_plain (fld : field) :
  kind fld = Plain ->
  Dict.get "type" (field_schema fld) = Some (VStr (get_data_type fld)).
Proof.
  intros Hk. unfold field_schema; cbv zeta. rewrite Hk.
  destruct (negb (is_None (max_val (attrs fld)))
            && bool_decide (get_data_type fld = "integer"));
    destruct (bool_decide (get_data_type fld = "multiple choice"));
    destruct (choices (attrs fld)); reflexivity.
Qed.

Lemma field_schema_serializer (fld : field) (cls : SerializerClass) :
  kind fld = Serializer false cls ->
  Dict.get "type" (field_schema fld) = Some (VStr (type_name fld cls))
  /\ Dict.get "items" (field_schema fld) = None.
Proof.
  intros Hk. unfold field_schema, type_name; cbv zeta. rewrite Hk.
  unfold get_serializer_name; cbn [fmap option_fmap option_map].
  rewrite serializer_name_field_object, has_many_eq.
  destruct (negb (is_None (max_val (attrs fld)))
            && bool_decide (get_data_type fld = "integer"));
    destruct (bool_decide (get_data_type fld = "multiple choice"));
    destruct (choices (attrs fld));
    destruct (getattr_false (write_only (attrs fld)));
    split; reflexivity.
Qed.

Lemma field_schema_list_serializer (fld : field) (cls : SerializerClass) :
  kind fld = Serializer true cls ->
  Dict.get "type" (field_schema fld) = Some (VStr "array")
  /\ Dict.get "items" (field_schema fld) =
       Some (if bool_decide (is_Some (PRIMITIVES !! get_data_type fld))
             then VDict [("type", VStr (get_data_type fld))]
             else VDict [("$ref", VStr (type_name fld cls))]).
Proof.
  intros Hk. unfold field_schema, type_name; cbv zeta. rewrite Hk.
  unfold get_serializer_name; cbn [fmap option_fmap option_map].
  rewrite serializer_name_field_object, has_many_eq.
  destruct (negb (is_None (max_val (attrs fld)))
            && bool_decide (get_data_type fld = "integer"));
    destruct (bool_decide (get_data_type fld = "multiple choice"));
    destruct (choices (attrs fld));
    destruct (getattr_false (write_only (attrs fld)));
    destruct (bool_decide (is_Some (PRIMITIVES !! get_data_type fld)));
    split; reflexivity.
Qed.

Lemma field_schema_min_max (fld : field) :
  get_data_type fld = "integer" ->
  (max_val (attrs fld) <> VNone ->
   Dict.get "minimum" (field_schema fld) = Some (min_val (attrs fld))
   /\ Dict.get "maximum" (field_schema fld) = Some (max_val (attrs fld)))
  /\ (max_val (attrs fld) = VNone ->
      Dict.get "minimum" (field_schema fld) = None
      /\ Dict.get "maximum" (field_schema fld) = None).
Proof.
  intros Hint.
  assert (Hcond : negb (is_None (max_val (attrs fld)))
                  && bool_decide (get_data_type fld = "integer")
                  = negb (is_None (max_val (attrs fld)))).
  { rewrite (bool_decide_eq_true_2 _ Hint). apply andb_true_r. }
  assert (Hmc : bool_decide (get_data_type fld = "multiple choice") = false).
  { apply bool_decide_eq_false_2. rewrite Hint. discriminate. }
  split; intros Hmax.
  - assert (Hn : is_None (max_val (attrs fld)) = false)
      by (destruct (max_val (attrs fld)); [contradiction | reflexivity ..]).
    unfold field_schema; cbv zeta. rewrite Hcond, Hn, Hmc. cbn [negb].
    destruct (kind fld) as [| many cls]; [split; reflexivity |].
    unfold get_serializer_name; cbn [fmap option_fmap option_map].
    rewrite has_many_eq.
    destruct many; destruct (getattr_false (write_only (attrs fld)));
      destruct (bool_decide (is_Some (PRIMITIVES !! get_data_type fld)));
      split; reflexivity.
  - unfold field_schema; cbv zeta. rewrite Hcond, Hmax, Hmc. cbn [negb is_None].
    destruct (kind fld) as [| many cls]; [split; reflexivity |].
    unfold get_serializer_name; cbn [fmap option_fmap option_map].
    rewrite has_many_eq.
    destruct many; destruct (getattr_false (write_only (attrs fld)));
      destruct (bool_decide (is_Some (PRIMITIVES !! get_data_type fld)));
      split; reflexivity.
Qed.

(** C4. For every field that is itself a serializer,
    [_get_serializer_fields] sets the field's 'type' to the nested
    serializer's name, prefixed with 'Write' when the field is write-only;
    when the field is list-wrapped the 'type' is 'array' and 'items' is
    [{'type': data_type}] for a data type among the primitives and
    [{'$ref': name}] otherwise, [name] being the name the 'type' would have
    had. *)
Theorem serializer_field_type_and_items
    (s : serializer) (n : string) (fld : field) (many : bool) (cls : SerializerClass) :
  NoDup (get_fields (serializer_class s)).*1 ->
  (n, fld) ∈ get_fields (serializer_class s) ->
  kind fld = Serializer many cls ->
  exists data f,
    _get_serializer_fields (Some s) = Some data
    /\ Dict.get n (data_fields data) = Some (VDict f)
    /\ if many
       then Dict.get "type" f = Some (VStr "array")
            /\ Dict.get "items" f =
                 Some (if bool_decide (is_Some (PRIMITIVES !! get_data_type fld))
                       then VDict [("type", VStr (get_data_type fld))]
                       else VDict [("$ref", VStr (type_name fld cls))])
       else Dict.get "type" f = Some (VStr (type_name fld cls))
            /\ Dict.get "items" f = None.
Proof.
  intros Hnd Hin Hk. exists (serializer_fields s), (field_schema fld).
  split; [reflexivity |]. split; [exact (serializer_fields_get s n fld Hnd Hin) |].
  destruct many.
  - exact (field_schema_list_serializer fld cls Hk).
  - exact (field_schema_serializer fld cls Hk).
Qed.

(** C5, as the code has it. For every field, the 'format' is the first
    element of the [PRIMITIVES] entry of the field's data type when there
    is one and 'string' otherwise; the 'type' is the data type
    [get_data_type] gives unless the field is itself a serializer. *)
Theorem field_format_and_type (s : serializer) (n : string) (fld : field) :
  NoDup (get_fields (serializer_class s)).*1 ->
  (n, fld) ∈ get_fields (serializer_class s) ->
  exists data f,
    _get_serializer_fields (Some s) = Some data
    /\ Dict.get n (data_fields data) = Some (VDict f)
    /\ Dict.get "format" f =
         Some (VStr (match PRIMITIVES !! get_data_type fld with
                     | Some (first, _) => first
                     | None => "string"
                     end))
    /\ (is_BaseSerializer fld = false ->
        Dict.get "type" f = Some (VStr (get_data_type fld))).
Proof.
  intros Hnd Hin. exists (serializer_fields s), (field_schema fld).
  split; [reflexivity |]. split; [exact (serializer_fields_get s n fld Hnd Hin) |].
  split; [apply field_schema_format |].
  unfold is_BaseSerializer. intros Hplain. apply field_schema_type_plain.
  destruct (kind fld); [reflexivity | discriminate].
Qed.

(** C9. For every integer-typed field, 'minimum' and 'maximum' are both
    in the schema, as [min_val] and [max_val], when [max_val] is not
    [None], and neither is when [max_val] is [None], whatever [min_val]
    is. *)
Theorem integer_field_minimum_and_maximum (s : serializer) (n : string) (fld : field) :
  NoDup (get_fields (serializer_class s)).*1 ->
  (n, fld) ∈ get_fields (serializer_class s) ->
  get_data_type fld = "integer" ->
  exists data f,
    _get_serializer_fields (Some s) = Some data
    /\ Dict.get n (data_fields data) = Some (VDict f)
    /\ (max_val (attrs fld) <> VNone ->
        Dict.get "minimum" f = Some (min_val (attrs fld))
        /\ Dict.get "maximum" f = Some (max_val (attrs fld)))
    /\ (max_val (attrs fld) = VNone ->
        Dict.get "minimum" f = None /\ Dict.get "maximum" f = None).
Proof.
  intros Hnd Hin Hint. exists (serializer_fields s), (field_schema fld).
  split; [reflexivity |]. split; [exact (serializer_fields_get s n fld Hnd Hin) |].
  exact (field_schema_min_max fld Hint).
Qed.

(** ** Operations *)

(** The response type of a method does not depend on what is registered. *)
Lemma _get_method_response_type_fst (p : YamlParser) (s : option serializer)
    (i : Introspector) (m : MethodIntrospector) (st : gmap string value) :
  (_get_method_response_type p s i m st).1 =
    match get_response_type p with
    | Some _ => Some (response_type_name i m)
    | None => get_serializer_name s
    end.
Proof.
  unfold _get_method_response_type. destruct (get_response_type p); simpl.
  - reflexivity.
  - destruct (get_serializer_name s); reflexivity.
Qed.

Lemma _get_method_response_type_snd (p : YamlParser) (s : option serializer)
    (i : Introspector) (m : MethodIntrospector) (st : gmap string value) :
  (_get_method_response_type p s i m st).2 =
    match get_response_type p with
    | Some response_type =>
        <[response_type_name i m :=
            VDict [("id", VStr (response_type_name i m));
                   ("properties", response_type)]]> st
    | None => st
    end.
Proof. unfold _get_method_response_type. destruct (get_response_type p); reflexivity. Qed.

Lemma operation_of_fst (i : Introspector) (m : MethodIntrospector)
    (st st' : gmap string value) :
  (operation_of i m st).1 = (operation_of i m st').1.
Proof.
  unfold operation_of.
  pose proof (_get_method_response_type_fst (get_yaml_parser m)
                (_get_method_serializer m) i m st) as H.
  pose proof (_get_method_response_type_fst (get_yaml_parser m)
                (_get_method_serializer m) i m st') as H'.
  destruct (_get_method_response_type (get_yaml_parser m) (_get_method_serializer m)
              i m st) as [t st1].
  destruct (_get_method_response_type (get_yaml_parser m) (_get_method_serializer m)
              i m st') as [t' st1'].
  simpl in H, H'. rewrite H, H'. reflexivity.
Qed.

Lemma operation_of_snd (i : Introspector) (m : MethodIntrospector)
    (st : gmap string value) :
  (operation_of i m st).2 =
    (_get_method_response_type (get_yaml_parser m) (_get_method_serializer m)
       i m st).2.
Proof.
  unfold operation_of.
  destruct (_get_method_response_type (get_yaml_parser m) (_get_method_serializer m)
              i m st) as [t st1].
  reflexivity.
Qed.

Lemma get_operations_step_eq (i : Introspector) (acc : list value)
    (st : gmap string value) (m : MethodIntrospector) :
  get_operations_step i (acc, st) m =
    if skipped m then (acc, st)
    else (acc ++ [VDict (operation_of i m st).1], (operation_of i m st).2).
Proof.
  unfold get_operations_step. destruct (skipped m); [reflexivity |].
  destruct (operation_of i m st); reflexivity.
Qed.

(** The loop of [get_operations]: one operation for each method
    introspector that is not skipped, in order. *)
Lemma get_operations_loop (i : Introspector) (ms : list MethodIntrospector)
    (acc : list value) (st st' : gmap string value) :
  (fold_left (get_operations_step i) ms (acc, st)).1 =
    acc ++ ((fun m => VDict (operation_of i m st').1)
              <$> filter (fun m => negb (skipped m)) ms).
Proof.
  revert acc st. induction ms as [| m ms IH]; intros acc st; cbn [fold_left].
  - rewrite app_nil_r. reflexivity.
  - rewrite filter_cons, get_operations_step_eq.
    destruct (skipped m); cbn [negb].
    + apply IH.
    + rewrite IH, <- app_assoc, (operation_of_fst i m st st'). reflexivity.
Qed.

Lemma get_operations_fst (api : Api) (apis : option (list Api))
    (st st' : gmap string value) :
  let i := get_introspector api (default [api] apis) in
  (get_operations api apis st).1 =
    (fun m => VDict (operation_of i m st').1)
      <$> filter (fun m => negb (skipped m)) (method_introspectors i).
Proof.
  intros i. unfold get_operations.
  replace (match apis with Some apis0 => apis0 | None => [api] end)
    with (default [api] apis) by (destruct apis; reflexivity).
  fold i. rewrite (get_operations_loop i _ [] st st'). reflexivity.
Qed.

(** The operations of an API do not depend on what is registered. *)
Lemma get_operations_fst_state (api : Api) (apis : option (list Api))
    (st st' : gmap string value) :
  (get_operations api apis st).1 = (get_operations api apis st').1.
Proof.
  rewrite (get_operations_fst api apis st ∅), (get_operations_fst api apis st' ∅).
  reflexivity.
Qed.

Lemma generate_step_eq (all : list Api) (acc : list value)
    (st : gmap string value) (api : Api) :
  generate_step all (acc, st) api =
    (acc ++ [VDict [("description", get_view_description (api_callback api));
                    ("path", VStr (api_path api));
                    ("operations", VList (get_operations api (Some all) st).1)]],
     (get_operations api (Some all) st).2).
Proof. unfold generate_step. destruct (get_operations api (Some all) st); reflexivity. Qed.

Lemma generate_loop (all apis : list Api) (acc : list value)
    (st st' : gmap string value) :
  (fold_left (generate_step all) apis (acc, st)).1 =
    acc ++ ((fun api =>
               VDict [("description", get_view_description (api_callback api));
                      ("path", VStr (api_path api));
                      ("operations", VList (get_operations api (Some all) st').1)])
              <$> apis).
Proof.
  revert acc st. induction apis as [| api apis IH]; intros acc st; cbn [fold_left].
  - rewrite app_nil_r. reflexivity.
  - rewrite generate_step_eq, IH, <- app_assoc.
    rewrite (get_operations_fst_state api (Some all) st st'). reflexivity.
Qed.

(** C6. For every list of APIs, [generate] returns one entry per API, in
    the order of the list, and each entry is the dictionary of exactly the
    keys 'description', 'path', the path of the API, and 'operations', what
    [get_operations] returns for the API (which does not depend on the
    response types registered so far). *)
Theorem generate_one_entry_per_api (apis : list Api) (st st' : gmap string value) :
  (generate apis st).1 =
    (fun api =>
       VDict [("description", get_view_description (api_callback api));
              ("path", VStr (api_path api));
              ("operations", VList (get_operations api (Some apis) st').1)])
      <$> apis.
Proof. unfold generate. rewrite (generate_loop apis apis [] st st'). reflexivity. Qed.

(** The keys of an operation, in order. *)
Lemma operation_keys (i : Introspector) (m : MethodIntrospector)
    (st : gmap string value) :
  Dict.keys (operation_of i m st).1 =
    ["method"; "summary"; "nickname"; "notes"; "type"]
      ++ (if discover_parameters (get_yaml_parser m) is [] then [] else ["parameters"])
      ++ (if get_response_messages (get_yaml_parser m) is [] then []
          else ["responseMessages"]).
Proof.
  unfold operation_of.
  destruct (_get_method_response_type (get_yaml_parser m) (_get_method_serializer m)
              i m st) as [t st1].
  destruct (yaml_error (get_yaml_parser m));
    destruct (discover_parameters (get_yaml_parser m));
    destruct (get_response_messages (get_yaml_parser m)); reflexivity.
Qed.

Lemma operation_notes (i : Introspector) (m : MethodIntrospector)
    (st : gmap string value) :
  Dict.get "notes" (operation_of i m st).1 =
    Some (VStr (match yaml_error (get_yaml_parser m) with
                | Some err =>
                    get_notes m +:+ "<pre>YAMLError:" +:+ newline +:+ " "
                      +:+ err +:+ "</pre>"
                | None => get_notes m
                end)).
Proof.
  unfold operation_of.
  destruct (_get_method_response_type (get_yaml_parser m) (_get_method_serializer m)
              i m st) as [t st1].
  destruct (yaml_error (get_yaml_parser m));
    destruct (discover_parameters (get_yaml_parser m));
    destruct (get_response_messages (get_yaml_parser m)); reflexivity.
Qed.


Lemma operation_method (i : Introspector) (m : MethodIntrospector)
    (st : gmap string value) :
  Dict.get "method" (operation_of i m st).1 = Some (VStr (get_http_method m))
  /\ Dict.get "nickname" (operation_of i m st).1 = Some (get_nickname m).
Proof.
  unfold operation_of.
  destruct (_get_method_response_type (get_yaml_parser m) (_get_method_serializer m)
              i m st) as [t st1].
  destruct (yaml_error (get_yaml_parser m));
    destruct (discover_parameters (get_yaml_parser m));
    destruct (get_response_messages (get_yaml_parser m)); split; reflexivity.
Qed.

(** A method that is not skipped has its operation in the result. *)
Lemma operation_emitted (api : Api) (apis : option (list Api))
    (st st' : gmap string value) (m : MethodIntrospector) :
  let i := get_introspector api (default [api] apis) in
  m ∈ method_introspectors i -> skipped m = false ->
  VDict (operation_of i m st').1 ∈ (get_operations api apis st).1.
Proof.
  intros i Hm Hs. rewrite (get_operations_fst api apis st st'). fold i.
  apply (list_elem_of_fmap_2 (fun m => VDict (operation_of i m st').1)).
  apply list_elem_of_filter. split; [rewrite Hs; exact I | exact Hm].
Qed.

(** C7. Every operation dictionary [get_operations] produces has the keys
    'method', 'summary', 'nickname', 'notes' and 'type'; it has a
    'parameters' key if and only if the discovered parameter list is not
    empty, and a 'responseMessages' key if and only if the parsed response
    messages are not empty. *)
Theorem operation_dictionary_keys (api : Api) (apis : option (list Api))
    (st : gmap string value) (op : value) :
  op ∈ (get_operations api apis st).1 ->
  exists m d,
    m ∈ method_introspectors (get_introspector api (default [api] apis))
    /\ skipped m = false
    /\ op = VDict d
    /\ (forall k, k ∈ ["method"; "summary"; "nickname"; "notes"; "type"] ->
                  k ∈ Dict.keys d)
    /\ ("parameters" ∈ Dict.keys d <-> discover_parameters (get_yaml_parser m) <> [])
    /\ ("responseMessages" ∈ Dict.keys d
        <-> get_response_messages (get_yaml_parser m) <> []).
Proof.
  intros Hop. rewrite (get_operations_fst api apis st st) in Hop.
  apply list_elem_of_fmap in Hop as (m & -> & Hm).
  apply list_elem_of_filter in Hm as [Hs Hm].
  exists m, (operation_of (get_introspector api (default [api] apis)) m st).1.
  split; [exact Hm |]. split; [destruct (skipped m); [contradiction | reflexivity] |].
  split; [reflexivity |]. rewrite operation_keys.
  destruct (discover_parameters (get_yaml_parser m));
    destruct (get_response_messages (get_yaml_parser m));
    (split; [intros k Hk; apply elem_of_app; left; exact Hk |]);
    split; split; intros H; try discriminate; try contradiction;
    repeat (apply elem_of_cons in H as [H | H]; [discriminate H |]);
    try (apply elem_of_nil in H; contradiction);
    simpl; repeat (first [left; reflexivity | right]).
Qed.

(** C10. A method whose docstring YAML did not parse still has its
    operation, with the error appended to the notes inside
    [<pre>YAMLError:\n ...</pre>]; without an error the notes are the
    method's notes. *)
Theorem yaml_error_is_appended_to_notes (api : Api) (apis : option (list Api))
    (st : gmap string value) (m : MethodIntrospector) :
  m ∈ method_introspectors (get_introspector api (default [api] apis)) ->
  skipped m = false ->
  exists d,
    VDict d ∈ (get_operations api apis st).1
    /\ Dict.get "method" d = Some (VStr (get_http_method m))
    /\ Dict.get "nickname" d = Some (get_nickname m)
    /\ Dict.get "notes" d =
         Some (VStr (match yaml_error (get_yaml_parser m) with
                     | Some err =>
                         get_notes m +:+ "<pre>YAMLError:" +:+ newline +:+ " "
                           +:+ err +:+ "</pre>"
                     | None => get_notes m
                     end)).
Proof.
  intros Hm Hs.
  exists (operation_of (get_introspector api (default [api] apis)) m st).1.
  split; [exact (operation_emitted api apis st st m Hm Hs) |].
  split; [apply operation_method |]. split; [apply operation_method |].
  apply operation_notes.
Qed.

(** ** Registered response types *)



Lemma _get_method_response_type_ok (p : YamlParser)
    (s : option serializer) (i : Introspector) (m : MethodIntrospector)
    (st : gmap string value) :
  registered_types_ok st ->
  registered_types_ok (_get_method_response_type p s i m st).2.
Proof.
  intros Hok. rewrite _get_method_response_type_snd.
  destruct (get_response_type p) as [rt |]; [| exact Hok].
  intros name model. destruct (decide (response_type_name i m = name)) as [<- | Hne].
  - rewrite lookup_insert_eq. intros [= <-]. exists rt. reflexivity.
  - rewrite lookup_insert_ne by exact Hne. apply Hok.
Qed.

(** A property of the registry that every registration keeps holds after
    the loop of [get_operations], and after that of [generate]. *)
Lemma get_operations_loop_keeps (P : gmap string value -> Prop)
    (i : Introspector) (ms : list MethodIntrospector) :
  (forall p s m st, P st -> P (_get_method_response_type p s i m st).2) ->
  forall acc st, P st -> P (fold_left (get_operations_step i) ms (acc, st)).2.
Proof.
  intros Hkeep. induction ms as [| m ms IH]; intros acc st HP; cbn [fold_left].
  - exact HP.
  - rewrite get_operations_step_eq. destruct (skipped m); [apply IH; exact HP |].
    apply IH. rewrite operation_of_snd. apply Hkeep. exact HP.
Qed.

Lemma get_operations_keeps (P : gmap string value -> Prop)
    (api : Api) (apis : option (list Api)) (st : gmap string value) :
  (forall p s i m st, P st -> P (_get_method_response_type p s i m st).2) ->
  P st -> P (get_operations api apis st).2.
Proof.
  intros Hkeep HP. unfold get_operations. apply get_operations_loop_keeps.
  - intros p s m st0. apply Hkeep.
  - exact HP.
Qed.

Lemma generate_loop_keeps (P : gmap string value -> Prop)
    (all apis : list Api) :
  (forall p s i m st, P st -> P (_get_method_response_type p s i m st).2) ->
  forall acc st, P st -> P (fold_left (generate_step all) apis (acc, st)).2.
Proof.
  intros Hkeep. induction apis as [| api apis IH]; intros acc st HP; cbn [fold_left].
  - exact HP.
  - rewrite generate_step_eq. apply IH. apply get_operations_keeps; assumption.
Qed.




(** [generate] leaves a well-formed registry well formed. *)
Lemma generate_registered_types_ok (apis : list Api) (st : gmap string value) :
  registered_types_ok st -> registered_types_ok (generate apis st).2.
Proof.
  intros Hok. unfold generate. apply generate_loop_keeps.
  - intros p s i m st0. apply _get_method_response_type_ok.
  - exact Hok.
Qed.

Lemma registered_types_ok_empty : registered_types_ok ∅.
Proof. intros name model H. rewrite lookup_empty in H. discriminate. Qed.



(** ** The walk over nested serializers *)

(** Induction on serializer classes: a property that holds of a class when
    it holds of the classes of its serializer fields holds of every
    class. *)
Lemma SerializerClass_nested_ind (P : SerializerClass -> Prop) :
  (forall name fields,
      (forall n fld many cls,
          (n, fld) ∈ fields -> kind fld = Serializer many cls -> P cls) ->
      P (Class name fields)) ->
  forall c, P c.
Proof.
  intros Hstep. fix IH 1. intros [name fields]. apply Hstep.
  induction fields as [| [n0 [a0 k0]] fs IHfs]; intros n fld many cls Hin Hk.
  - inversion Hin.
  - apply elem_of_cons in Hin as [Heq | Hin].
    + destruct k0 as [| many0 cls0].
      * injection Heq as -> ->. discriminate Hk.
      * assert (Hcls : cls0 = cls) by (injection Heq as -> ->; simpl in Hk; congruence).
        rewrite <- Hcls. apply IH.
    + exact (IHfs n fld many cls Hin Hk).
Qed.

Lemma obj_add_new (o : obj) (s : list obj) :
  o.1 ∉ s.*1 -> obj_add o s = s ++ [o].
Proof.
  intros Hnew. unfold obj_add, obj_in.
  rewrite bool_decide_eq_false_2 by exact Hnew. reflexivity.
Qed.

(** Adding objects that are all new, and different from one another, puts
    them after the set. *)
Lemma obj_update_new (s new : list obj) :
  NoDup new.*1 -> (forall o, o ∈ new -> o.1 ∉ s.*1) ->
  obj_update s new = s ++ new.
Proof.
  unfold obj_update. revert s. induction new as [| o new IH]; intros s Hnd Hnew; simpl.
  - rewrite app_nil_r. reflexivity.
  - apply NoDup_cons in Hnd as [Ho Hnd].
    rewrite obj_add_new by (apply Hnew; left).
    rewrite IH; [rewrite <- app_assoc; reflexivity | exact Hnd |].
    intros o' Ho'. rewrite fmap_app, elem_of_app. intros [Hin | Hin].
    + exact (Hnew o' ltac:(right; exact Ho') Hin).
    + simpl in Hin. apply elem_of_cons in Hin as [Heq | Hin]; [| inversion Hin].
      apply Ho. rewrite <- Heq. apply (list_elem_of_fmap_2 fst) in Ho'. exact Ho'.
Qed.

Lemma get_thing_field_object (oid : nat) (many : bool) (cls : SerializerClass) :
  (get_thing (oid, field_object many cls)).2 = SInstance cls
  /\ (get_thing (oid, field_object many cls)).1 < 2 + oid
  /\ oid <= (get_thing (oid, field_object many cls)).1.
Proof.
  unfold get_thing, field_object. simpl.
  destruct version_ge_3, many; simpl; repeat split; lia.
Qed.

(** The class the recursive call works on is the class of the field. *)
Lemma get_thing_class_field_object (oid : nat) (many : bool) (cls : SerializerClass) :
  get_thing_class (oid, field_object many cls) = cls.
Proof.
  unfold get_thing_class.
  destruct (get_thing_field_object oid many cls) as [-> _]. reflexivity.
Qed.

Lemma each_field_cons (find : SerializerClass -> list obj -> nat -> list obj * nat)
    (found : list obj) (n0 : string) (fld0 : field) (rest : list (string * field))
    (oid : nat) (set : list obj) (next : nat) :
  each_field find found ((n0, fld0) :: rest) oid set next =
    match kind fld0 with
    | Plain => each_field find found rest (2 + oid) set next
    | Serializer many cls =>
        let field := (oid, field_object many cls) in
        let set := obj_add (get_thing field) set in
        if negb (obj_in field found)
        then
          each_field find found rest (2 + oid)
            (obj_update set (find cls set next).1) (find cls set next).2
        else each_field find found rest (2 + oid) set next
    end.
Proof.
  simpl. destruct (kind fld0) as [| many cls]; [reflexivity |]. cbv zeta.
  destruct (negb (obj_in (oid, field_object many cls) found)); [| reflexivity].
  destruct (find cls (obj_add (get_thing (oid, field_object many cls)) set) next).
  reflexivity.
Qed.

(** The loop over the fields of a class, when the recursive calls do what
    [walk_adds] says: the field objects are numbered from [oid] on, below
    [next], and those of [found] were made before them, so that no field is
    in [found] and every serializer field is walked into. *)
Lemma each_field_walk
    (find : SerializerClass -> list obj -> nat -> list obj * nat)
    (found : list obj) (fields : list (string * field)) :
  (forall n fld many cls,
      (n, fld) ∈ fields -> kind fld = Serializer many cls ->
      forall found' next',
        (forall o, o ∈ found' -> o.1 < next') ->
        walk_adds (nested_in cls) [] next' (find cls found' next')) ->
  forall oid set next,
    (forall o, o ∈ found -> o.1 < oid) ->
    oid + 2 * length fields <= next ->
    (forall o, o ∈ set ->
               o.1 < oid \/ (oid + 2 * length fields <= o.1 /\ o.1 < next)) ->
    NoDup set.*1 ->
    exists new,
      (each_field find found fields oid set next).1 = set ++ new
      /\ next <= (each_field find found fields oid set next).2
      /\ NoDup new.*1
      /\ (forall o, o ∈ new ->
                    (oid <= o.1 /\ o.1 < oid + 2 * length fields)
                    \/ (next <= o.1 /\ o.1 < (each_field find found fields oid set next).2))
      /\ (forall n fld many cls d,
             (n, fld) ∈ fields -> kind fld = Serializer many cls ->
             rtc nests cls d ->
             exists o, o ∈ new /\ o.2 = SInstance d).
Proof.
  induction fields as [| [n0 fld0] rest IH]; intros Hfind oid set next Hfound Hlim Hset Hnd.
  - exists []. simpl. rewrite app_nil_r. repeat split.
    + lia.
    + constructor.
    + intros o Ho. inversion Ho.
    + intros n fld many cls d Hin. inversion Hin.
  - rewrite each_field_cons. simpl length in *.
    assert (Hfind' : forall n fld many cls,
               (n, fld) ∈ rest -> kind fld = Serializer many cls ->
               forall found' next',
                 (forall o, o ∈ found' -> o.1 < next') ->
                 walk_adds (nested_in cls) [] next' (find cls found' next')).
    { intros n fld many cls Hin. apply (Hfind n fld many cls). right. exact Hin. }
    destruct (kind fld0) as [| many cls] eqn:Hk.
    + (* a plain field *)
      destruct (IH Hfind' (2 + oid) set next) as (new & Hres & Hnext & Hndn & Hids & Hreach).
      * intros o Ho. specialize (Hfound o Ho). lia.
      * lia.
      * intros o Ho. specialize (Hset o Ho). lia.
      * exact Hnd.
      * exists new. split; [exact Hres |]. split; [exact Hnext |].
        split; [exact Hndn |]. split.
        -- intros o Ho. specialize (Hids o Ho). lia.
        -- intros n fld many cls d Hin Hkf Hd.
           apply elem_of_cons in Hin as [Heq | Hin].
           ++ injection Heq as -> ->. rewrite Hk in Hkf. discriminate.
           ++ exact (Hreach n fld many cls d Hin Hkf Hd).
    + (* a serializer field *)
      cbv zeta.
      destruct (get_thing_field_object oid many cls) as (Hthing & Hlt & Hge).
      set (thing := get_thing (oid, field_object many cls)) in *.
      assert (Hnew : thing.1 ∉ set.*1).
      { intros Hin. apply list_elem_of_fmap in Hin as (o & Heq & Ho).
        specialize (Hset o Ho). lia. }
      rewrite (obj_add_new thing set Hnew).
      assert (Hnotin : obj_in (oid, field_object many cls) found = false).
      { apply bool_decide_eq_false_2. simpl. intros Hin.
        apply list_elem_of_fmap in Hin as (o & Heq & Ho).
        specialize (Hfound o Ho). lia. }
      rewrite Hnotin. cbn [negb].
      destruct (Hfind n0 fld0 many cls ltac:(left) Hk (set ++ [thing]) next)
        as (sub & Hsub & Hnext1 & Hndsub & Hidsub & Hreachsub).
      { intros o Ho. apply elem_of_app in Ho as [Ho | Ho].
        - specialize (Hset o Ho). lia.
        - apply elem_of_cons in Ho as [-> | Ho]; [lia | inversion Ho]. }
      simpl in Hsub.
      set (r := find cls (set ++ [thing]) next) in *.
      rewrite Hsub.
      assert (Hfresh : forall o, o ∈ sub -> o.1 ∉ (set ++ [thing]).*1).
      { intros o Ho Hin. specialize (Hidsub o Ho).
        apply list_elem_of_fmap in Hin as (o' & Heq & Ho').
        apply elem_of_app in Ho' as [Ho' | Ho'].
        - specialize (Hset o' Ho'). lia.
        - apply elem_of_cons in Ho' as [-> | Ho']; [lia | inversion Ho']. }
      rewrite (obj_update_new _ sub Hndsub Hfresh).
      destruct (IH Hfind' (2 + oid) ((set ++ [thing]) ++ sub) r.2)
        as (new & Hres & Hnext & Hndn & Hids & Hreach).
      * intros o Ho. specialize (Hfound o Ho). lia.
      * lia.
      * intros o Ho. apply elem_of_app in Ho as [Ho | Ho].
        -- apply elem_of_app in Ho as [Ho | Ho].
           ++ specialize (Hset o Ho). lia.
           ++ apply elem_of_cons in Ho as [-> | Ho]; [lia | inversion Ho].
        -- specialize (Hidsub o Ho). lia.
      * rewrite fmap_app. apply NoDup_app. split; [| split; [| exact Hndsub]].
        -- rewrite fmap_app. apply NoDup_app. split; [exact Hnd |]. split.
           ++ intros x Hx Hx'. simpl in Hx'.
              apply elem_of_cons in Hx' as [-> | Hx']; [| inversion Hx'].
              exact (Hnew Hx).
           ++ apply NoDup_singleton.
        -- intros x Hx Hx'. apply list_elem_of_fmap in Hx' as (o & -> & Ho).
           exact (Hfresh o Ho Hx).
      * exists (thing :: sub ++ new).
        split; [rewrite Hres, <- !app_assoc; reflexivity |].
        split; [lia |]. split; [| split].
        -- rewrite fmap_cons, fmap_app. apply NoDup_cons. split.
           ++ rewrite elem_of_app. intros [Hin | Hin];
                apply list_elem_of_fmap in Hin as (o & Heq & Ho).
              ** specialize (Hidsub o Ho). lia.
              ** specialize (Hids o Ho). lia.
           ++ apply NoDup_app. split; [exact Hndsub |]. split; [| exact Hndn].
              intros x Hx Hx'.
              apply list_elem_of_fmap in Hx as (o & -> & Ho).
              apply list_elem_of_fmap in Hx' as (o' & Heq & Ho').
              specialize (Hidsub o Ho). specialize (Hids o' Ho'). lia.
        -- intros o Ho. apply elem_of_cons in Ho as [-> | Ho]; [lia |].
           apply elem_of_app in Ho as [Ho | Ho].
           ++ specialize (Hidsub o Ho). lia.
           ++ specialize (Hids o Ho). lia.
        -- intros n fld many' cls' d Hin Hkf Hd.
           apply elem_of_cons in Hin as [Heq | Hin].
           ++ injection Heq as -> ->. rewrite Hk in Hkf. injection Hkf as -> ->.
              apply rtc_inv in Hd as [<- | (y & Hy & Hd)].
              ** exists thing. split; [left | exact Hthing].
              ** destruct (Hreachsub d) as (o & Ho & Hod).
                 { exists y. split; assumption. }
                 exists o. split; [| exact Hod].
                 right. apply elem_of_app. left. exact Ho.
           ++ destruct (Hreach n fld many' cls' d Hin Hkf Hd) as (o & Ho & Hod).
              exists o. split; [| exact Hod].
              right. apply elem_of_app. right. exact Ho.
Qed.

(** The walk into a class finds an instance of every class nested in it,
    whatever was found before, as long as the objects found before were
    made before. *)
Lemma find_in_class_walk (c : SerializerClass) :
  forall found set next,
    (forall o, o ∈ found -> o.1 < next) ->
    (forall o, o ∈ set -> o.1 < next) ->
    NoDup set.*1 ->
    walk_adds (nested_in c) set next (find_in_class c found set next).
Proof.
  induction c as [name fields IH] using SerializerClass_nested_ind.
  intros found set next Hfound Hset Hnd.
  change (find_in_class (Class name fields) found set next)
    with (each_field (fun cls found' next' => find_in_class cls found' [] next')
            found fields next set (2 * length fields + next)).
  destruct (each_field_walk
              (fun cls found' next' => find_in_class cls found' [] next')
              found fields) with (oid := next) (set := set)
              (next := 2 * length fields + next)
    as (new & Hres & Hnext & Hndn & Hids & Hreach).
  - intros n fld many cls Hin Hk found' next' Hfound'.
    apply (IH n fld many cls Hin Hk).
    + exact Hfound'.
    + intros o Ho. inversion Ho.
    + constructor.
  - exact Hfound.
  - lia.
  - intros o Ho. left. exact (Hset o Ho).
  - exact Hnd.
  - exists new. split; [exact Hres |]. split; [lia |]. split; [exact Hndn |]. split.
    + intros o Ho. specialize (Hids o Ho). lia.
    + intros d (cls & (n & fld & many & Hin & Hk) & Hd).
      exact (Hreach n fld many cls d Hin Hk Hd).
Qed.

(** [_find_field_serializers] finds an instance of every class nested in
    one of the classes it is given. *)
Lemma _find_field_serializers_loop (classes : list SerializerClass)
    (found : list obj) :
  forall set next,
    (forall o, o ∈ found -> o.1 < next) ->
    (forall o, o ∈ set -> o.1 < next) ->
    NoDup set.*1 ->
    walk_adds (fun d => exists c, c ∈ classes /\ nested_in c d) set next
      (fold_left
         (fun '(serializers_set, next) c => find_in_class c found serializers_set next)
         classes (set, next)).
Proof.
  induction classes as [| c classes IH]; intros set next Hfound Hset Hnd;
    cbn [fold_left].
  - exists []. simpl. rewrite app_nil_r.
    split; [reflexivity |]. split; [lia |]. split; [constructor |]. split.
    + intros o Ho. inversion Ho.
    + intros d (c & Hc & _). inversion Hc.
  - destruct (find_in_class_walk c found set next Hfound Hset Hnd)
      as (new1 & Hres1 & Hnext1 & Hnd1 & Hids1 & Hreach1).
    destruct (find_in_class c found set next) as [set1 next1]. simpl in *. subst set1.
    destruct (IH (set ++ new1) next1) as (new & Hres & Hnext & Hndn & Hids & Hreach).
    + intros o Ho. specialize (Hfound o Ho). lia.
    + intros o Ho. apply elem_of_app in Ho as [Ho | Ho].
      * specialize (Hset o Ho). lia.
      * specialize (Hids1 o Ho). lia.
    + rewrite fmap_app. apply NoDup_app. split; [exact Hnd |]. split; [| exact Hnd1].
      intros x Hx Hx'. apply list_elem_of_fmap in Hx as (o & -> & Ho).
      apply list_elem_of_fmap in Hx' as (o' & Heq & Ho').
      specialize (Hset o Ho). specialize (Hids1 o' Ho'). lia.
    + exists (new1 ++ new). split; [rewrite Hres, <- app_assoc; reflexivity |].
      split; [lia |]. split; [| split].
      * rewrite fmap_app. apply NoDup_app. split; [exact Hnd1 |]. split; [| exact Hndn].
        intros x Hx Hx'. apply list_elem_of_fmap in Hx as (o & -> & Ho).
        apply list_elem_of_fmap in Hx' as (o' & Heq & Ho').
        specialize (Hids1 o Ho). specialize (Hids o' Ho'). lia.
      * intros o Ho. apply elem_of_app in Ho as [Ho | Ho].
        -- specialize (Hids1 o Ho). lia.
        -- specialize (Hids o Ho). lia.
      * intros d (c' & Hc' & Hd). apply elem_of_cons in Hc' as [-> | Hc'].
        -- destruct (Hreach1 d Hd) as (o & Ho & Hod).
           exists o. split; [apply elem_of_app; left; exact Ho | exact Hod].
        -- destruct (Hreach d) as (o & Ho & Hod); [exists c'; split; assumption |].
           exists o. split; [apply elem_of_app; right; exact Ho | exact Hod].
Qed.

Lemma _find_field_serializers_finds (classes : list SerializerClass)
    (c d : SerializerClass) :
  c ∈ classes -> nested_in c d ->
  SInstance d ∈ (_find_field_serializers classes [] 0).1.*2.
Proof.
  intros Hc Hd. unfold _find_field_serializers.
  destruct (_find_field_serializers_loop classes [] [] 0)
    as (new & Hres & _ & _ & _ & Hreach).
  - intros o Ho. inversion Ho.
  - intros o Ho. inversion Ho.
  - constructor.
  - destruct (Hreach d) as (o & Ho & Hod); [exists c; split; assumption |].
    rewrite Hres. simpl. rewrite <- Hod.
    apply (list_elem_of_fmap_2 snd). exact Ho.
Qed.

(** ** The set of serializers [get_models] runs over *)

Lemma elem_of_set_add {A : Type} `{EqDecision A} (x y : A) (s : list A) :
  x ∈ set_add y s <-> x = y \/ x ∈ s.
Proof.
  unfold set_add. destruct (bool_decide (y ∈ s)) eqn:Hy.
  - apply bool_decide_eq_true in Hy. split; [intros H; right; exact H |].
    intros [-> | H]; assumption.
  - rewrite elem_of_app, elem_of_cons, elem_of_nil. tauto.
Qed.

Lemma elem_of_set_update {A : Type} `{EqDecision A} (x : A) (s new : list A) :
  x ∈ set_update s new <-> x ∈ s \/ x ∈ new.
Proof.
  unfold set_update. revert s. induction new as [| y new IH]; intros s; simpl.
  - rewrite elem_of_nil. tauto.
  - rewrite IH, elem_of_set_add, elem_of_cons. tauto.
Qed.

Lemma _get_serializer_set_methods
    (ms : list MethodIntrospector) (set : list serializer) (s : serializer) :
  s ∈ fold_left
        (fun serializers m =>
           match _get_method_serializer m with
           | Some serializer => set_add serializer serializers
           | None => serializers
           end) ms set
  <-> s ∈ set \/ exists m, m ∈ ms /\ _get_method_serializer m = Some s.
Proof.
  revert set. induction ms as [| m ms IH]; intros set; cbn [fold_left].
  - split; [intros H; left; exact H |].
    intros [H | (m & Hm & _)]; [exact H | inversion Hm].
  - rewrite IH. split.
    + intros [H | (m' & Hm' & Hs)].
      * destruct (_get_method_serializer m) as [s' |] eqn:Hsm; [| left; exact H].
        apply elem_of_set_add in H as [-> | H]; [| left; exact H].
        right. exists m. split; [left | exact Hsm].
      * right. exists m'. split; [right; exact Hm' | exact Hs].
    + intros [H | (m' & Hm' & Hs)].
      * left. destruct (_get_method_serializer m); [| exact H].
        apply elem_of_set_add. right. exact H.
      * apply elem_of_cons in Hm' as [-> | Hm'].
        -- left. rewrite Hs. apply elem_of_set_add. left. reflexivity.
        -- right. exists m'. split; assumption.
Qed.

Lemma _get_serializer_set_loop (all apis : list Api) (set : list serializer)
    (s : serializer) :
  s ∈ fold_left
        (fun serializers api =>
           fold_left
             (fun serializers m =>
                match _get_method_serializer m with
                | Some serializer => set_add serializer serializers
                | None => serializers
                end)
             (method_introspectors (get_introspector api all)) serializers)
        apis set
  <-> s ∈ set
      \/ exists api m,
           api ∈ apis
           /\ m ∈ method_introspectors (get_introspector api all)
           /\ _get_method_serializer m = Some s.
Proof.
  revert set. induction apis as [| api apis IH]; intros set; cbn [fold_left].
  - split; [intros H; left; exact H |].
    intros [H | (api & m & Hapi & _)]; [exact H | inversion Hapi].
  - rewrite IH, _get_serializer_set_methods. split.
    + intros [[H | (m & Hm & Hs)] | (api' & m & Hapi' & Hm & Hs)].
      * left. exact H.
      * right. exists api, m. split; [left | split; assumption].
      * right. exists api', m. split; [right; exact Hapi' | split; assumption].
    + intros [H | (api' & m & Hapi' & Hm & Hs)].
      * left. left. exact H.
      * apply elem_of_cons in Hapi' as [-> | Hapi'].
        -- left. right. exists m. split; assumption.
        -- right. exists api', m. split; [exact Hapi' | split; assumption].
Qed.

(** The set [_get_serializer_set] returns is the serializers the methods
    use. *)
Lemma elem_of__get_serializer_set (apis : list Api) (s : serializer) :
  s ∈ _get_serializer_set apis <-> used_by_method apis s.
Proof.
  unfold _get_serializer_set, used_by_method.
  rewrite _get_serializer_set_loop, elem_of_nil. tauto.
Qed.

(** A serializer a method uses, an explicit one, and an instance of every
    class nested in one of them are in the set. *)
Lemma model_serializers_closed (apis : list Api) (s : serializer)
    (d : SerializerClass) :
  used_by_method apis s \/ s ∈ SClass <$> explicit_serializers ->
  rtc nests (serializer_class s) d ->
  exists x, x ∈ model_serializers apis /\ serializer_class x = d.
Proof.
  intros Hroot Hd. unfold model_serializers. cbv zeta.
  set (roots := set_update (_get_serializer_set apis) (SClass <$> explicit_serializers)).
  assert (Hs : s ∈ roots).
  { apply elem_of_set_update. rewrite elem_of__get_serializer_set. exact Hroot. }
  apply rtc_inv in Hd as [<- | (cls & Hcls & Hd)].
  - exists s. split; [apply elem_of_app; left; exact Hs | reflexivity].
  - exists (SInstance d). split; [| reflexivity]. apply elem_of_app. right.
    apply (_find_field_serializers_finds _ (serializer_class s) d).
    + apply (list_elem_of_fmap_2 serializer_class). exact Hs.
    + exists cls. split; assumption.
Qed.

(** ** The models of the serializers run over *)

(** An entry is a model whose 'id' is its key. *)
Lemma register_models_ids (models : gmap string value) (s : serializer) :
  (forall k v, models !! k = Some v ->
               exists model, v = VDict model /\ Dict.get "id" model = Some (VStr k)) ->
  forall k v, register_models models s !! k = Some v ->
              exists model, v = VDict model /\ Dict.get "id" model = Some (VStr k).
Proof.
  intros Hok k v. destruct (register_models_shape s) as (w & r & Hshape). rewrite Hshape.
  destruct (decide (serializer_name s = k)) as [<- | Hr].
  - rewrite lookup_insert_eq. intros [= <-]. eexists. split; reflexivity.
  - rewrite lookup_insert_ne by exact Hr.
    destruct (decide ("Write" +:+ serializer_name s = k)) as [<- | Hw].
    + rewrite lookup_insert_eq. intros [= <-]. eexists. split; reflexivity.
    + rewrite lookup_insert_ne by exact Hw. apply Hok.
Qed.

Lemma register_models_keeps (models : gmap string value) (s : serializer)
    (k : string) :
  is_Some (models !! k) -> is_Some (register_models models s !! k).
Proof.
  intros Hk. destruct (register_models_shape s) as (w & r & Hshape). rewrite Hshape.
  rewrite !lookup_insert_is_Some'. right. right. exact Hk.
Qed.

Lemma register_models_has (models : gmap string value) (s : serializer) :
  is_Some (register_models models s !! serializer_name s)
  /\ is_Some (register_models models s !! ("Write" +:+ serializer_name s)).
Proof.
  destruct (register_models_shape s) as (w & r & Hshape). rewrite Hshape.
  rewrite !lookup_insert_is_Some'. split; [left; reflexivity | right; left; reflexivity].
Qed.

Lemma fold_register_models_ids (l : list serializer) :
  forall models,
    (forall k v, models !! k = Some v ->
                 exists model, v = VDict model /\ Dict.get "id" model = Some (VStr k)) ->
    forall k v, fold_left register_models l models !! k = Some v ->
                exists model, v = VDict model /\ Dict.get "id" model = Some (VStr k).
Proof.
  induction l as [| s l IH]; intros models Hok; cbn [fold_left]; [exact Hok |].
  apply IH. apply register_models_ids. exact Hok.
Qed.

Lemma fold_register_models_keeps (l : list serializer) (k : string) :
  forall models,
    is_Some (models !! k) -> is_Some (fold_left register_models l models !! k).
Proof.
  induction l as [| s l IH]; intros models Hk; cbn [fold_left]; [exact Hk |].
  apply IH. apply register_models_keeps. exact Hk.
Qed.

Lemma fold_register_models_has (l : list serializer) (x : serializer) :
  x ∈ l ->
  forall models,
    is_Some (fold_left register_models l models !! serializer_name x)
    /\ is_Some (fold_left register_models l models !! ("Write" +:+ serializer_name x)).
Proof.
  induction l as [| s l IH]; intros Hx models; [inversion Hx |]. cbn [fold_left].
  apply elem_of_cons in Hx as [-> | Hx]; [| apply IH; exact Hx].
  split; apply fold_register_models_keeps; apply register_models_has.
Qed.

(** Whatever the order of the loop, [get_models] has the two models of
    every serializer of the set, each a model whose 'id' is its key. *)
Lemma get_models_over_has (order : list serializer) (st : gmap string value)
    (x : serializer) (key : string) :
  registered_types_ok st ->
  x ∈ order ->
  key = serializer_name x \/ key = "Write" +:+ serializer_name x ->
  exists model,
    get_models_over order st !! key = Some (VDict model)
    /\ Dict.get "id" model = Some (VStr key).
Proof.
  intros Hok Hx Hkey. unfold get_models_over, fields_serializers.
  rewrite (left_id_L ∅ (∪)). rewrite lookup_union.
  destruct (st !! key) as [v |] eqn:Hst.
  - destruct (Hok key v Hst) as (rt & ->).
    destruct (models_after order !! key); eexists; split; reflexivity.
  - assert (Hsome : is_Some (models_after order !! key)).
    { destruct (fold_register_models_has order x Hx ∅) as [Hr Hw].
      destruct Hkey as [-> | ->]; assumption. }
    destruct Hsome as [v Hv]. rewrite Hv.
    destruct (fold_register_models_ids order ∅) with (k := key) (v := v)
      as (model & -> & Hid).
    + intros k v' H. rewrite lookup_empty in H. discriminate.
    + exact Hv.
    + exists model. split; [reflexivity | exact Hid].
Qed.

(** X20. When every class gives its declared fields, so that the nested
    classes make a finite tree, [get_models] produces a model for every
    serializer a method of the given APIs uses, and also for every
    serializer reached from one of them through serializer fields,
    list-wrapped or not, over any number of steps: each has its read model
    and its write model in the result, in whatever order the set of
    serializers is run over. *)
Theorem get_models_walks_nested_serializers
    (apis : list Api) (st : gmap string value) (order : list serializer)
    (s : serializer) (d : SerializerClass) :
  registered_types_ok st ->
  (forall x, x ∈ order <-> x ∈ model_serializers apis) ->
  used_by_method apis s \/ s ∈ SClass <$> explicit_serializers ->
  rtc nests (serializer_class s) d ->
  (exists model,
      get_models_over order st !! class_name d = Some (VDict model)
      /\ Dict.get "id" model = Some (VStr (class_name d)))
  /\ (exists model,
        get_models_over order st !! ("Write" +:+ class_name d) = Some (VDict model)
        /\ Dict.get "id" model = Some (VStr ("Write" +:+ class_name d))).
Proof.
  intros Hok Horder Hroot Hd.
  destruct (model_serializers_closed apis s d Hroot Hd) as (x & Hx & <-).
  apply Horder in Hx.
  split; apply (get_models_over_has order st x _ Hok Hx); [left | right]; reflexivity.
Qed.

(** ** More on the schema of a field *)


Lemma field_schema_enum (fld : field) :
  Dict.get "enum" (field_schema fld) =
    if bool_decide (get_data_type fld = "multiple choice")
    then (fun l => VList (map fst l)) <$> choices (attrs fld)
    else None.
Proof. schema_cases fld; reflexivity. Qed.

Lemma field_schema_description (fld : field) :
  Dict.get "description" (field_schema fld) =
    Some (match help_text (attrs fld) with
          | Some d => if PyStr.strip_is_empty d then VNone else VStr d
          | None => VNone
          end).
Proof.
  assert (Hd : forall d, bool_decide (d = "") || PyStr.strip_is_empty d
                         = PyStr.strip_is_empty d).
  { intros d. destruct (bool_decide (d = "")) eqn:Hd; [| reflexivity].
    apply bool_decide_eq_true in Hd. subst d. reflexivity. }
  unfold field_schema; cbv zeta.
  destruct (help_text (attrs fld)) as [d |]; [rewrite Hd |];
    destruct (negb (is_None (max_val (attrs fld)))
              && bool_decide (get_data_type fld = "integer"));
    destruct (bool_decide (get_data_type fld = "multiple choice"));
    destruct (choices (attrs fld));
    destruct (kind fld) as [| many cls];
    try (unfold get_serializer_name; cbn [fmap option_fmap option_map];
         rewrite ?has_many_eq; destruct many;
         destruct (getattr_false (write_only (attrs fld)));
         destruct (bool_decide (is_Some (PRIMITIVES !! get_data_type fld))));
    try destruct (PyStr.strip_is_empty d); reflexivity.
Qed.

Lemma field_schema_flags (fld : field) :
  Dict.get "required" (field_schema fld)
    = Some (VBool (getattr_false (required (attrs fld))))
  /\ Dict.get "readOnly" (field_schema fld)
     = Some (value_of_opt_bool (read_only (attrs fld)))
  /\ Dict.get "defaultValue" (field_schema fld) = Some (get_default_value fld).
Proof. schema_cases fld; repeat split; reflexivity. Qed.


(** X2. The 'enum' of a field is the list of the first components of its
    choices when the data type is 'multiple choice' and the choices are a
    list; a field of another data type, or whose choices are not a list, has
    no 'enum'. *)
Theorem field_enum_lists_the_choice_keys (s : serializer) (n : string) (fld : field) :
  NoDup (get_fields (serializer_class s)).*1 ->
  (n, fld) ∈ get_fields (serializer_class s) ->
  exists data f,
    _get_serializer_fields (Some s) = Some data
    /\ Dict.get n (data_fields data) = Some (VDict f)
    /\ (forall l, get_data_type fld = "multiple choice" ->
                  choices (attrs fld) = Some l ->
                  Dict.get "enum" f = Some (VList (map fst l)))
    /\ (get_data_type fld <> "multiple choice" \/ choices (attrs fld) = None ->
        Dict.get "enum" f = None).
Proof.
  intros Hnd Hin. exists (serializer_fields s), (field_schema fld).
  split; [reflexivity |]. split; [exact (serializer_fields_get s n fld Hnd Hin) |].
  rewrite field_schema_enum. split.
  - intros l Hmc Hl. rewrite (bool_decide_eq_true_2 _ Hmc), Hl. reflexivity.
  - intros [Hmc | Hl].
    + rewrite (bool_decide_eq_false_2 _ Hmc). reflexivity.
    + rewrite Hl. destruct (bool_decide _); reflexivity.
Qed.

(** X3. The 'description' of a field is its help text, as it is, unless the
    help text is missing, [None], empty or white space only: then it is
    [None]. *)
Theorem field_description_is_the_help_text (s : serializer) (n : string) (fld : field) :
  NoDup (get_fields (serializer_class s)).*1 ->
  (n, fld) ∈ get_fields (serializer_class s) ->
  exists data f,
    _get_serializer_fields (Some s) = Some data
    /\ Dict.get n (data_fields data) = Some (VDict f)
    /\ (forall d, help_text (attrs fld) = Some d -> PyStr.strip_is_empty d = false ->
                  Dict.get "description" f = Some (VStr d))
    /\ (forall d, help_text (attrs fld) = Some d -> PyStr.strip_is_empty d = true ->
                  Dict.get "description" f = Some VNone)
    /\ (help_text (attrs fld) = None -> Dict.get "description" f = Some VNone).
Proof.
  intros Hnd Hin. exists (serializer_fields s), (field_schema fld).
  split; [reflexivity |]. split; [exact (serializer_fields_get s n fld Hnd Hin) |].
  rewrite field_schema_description. repeat split.
  - intros d Hd Hs. rewrite Hd, Hs. reflexivity.
  - intros d Hd Hs. rewrite Hd, Hs. reflexivity.
  - intros Hd. rewrite Hd. reflexivity.
Qed.

(** X4. The lists of names and the schemas agree: a field is named in
    [data['required']] exactly when its schema has 'required' true, in
    [data['read_only']] exactly when its schema has 'readOnly' true, and a
    field without a [read_only] attribute has 'readOnly' [None]. *)
Theorem field_flags_agree_with_the_lists (s : serializer) (n : string) (fld : field) :
  NoDup (get_fields (serializer_class s)).*1 ->
  (n, fld) ∈ get_fields (serializer_class s) ->
  exists data f,
    _get_serializer_fields (Some s) = Some data
    /\ Dict.get n (data_fields data) = Some (VDict f)
    /\ (n ∈ data_required data <-> Dict.get "required" f = Some (VBool true))
    /\ (n ∈ data_read_only data <-> Dict.get "readOnly" f = Some (VBool true))
    /\ (read_only (attrs fld) = None -> Dict.get "readOnly" f = Some VNone).
Proof.
  intros Hnd Hin. exists (serializer_fields s), (field_schema fld).
  split; [reflexivity |]. split; [exact (serializer_fields_get s n fld Hnd Hin) |].
  destruct (field_schema_flags fld) as (Hreq & Hro & _). rewrite Hreq, Hro.
  rewrite (serializer_fields_eq s Hnd). cbn [data_required data_read_only].
  rewrite <- !str_in_true.
  rewrite (name_in_marked (fun f => getattr_false (required (attrs f))) _ n fld Hnd Hin).
  rewrite (name_in_marked (fun f => getattr_false (read_only (attrs f))) _ n fld Hnd Hin).
  split; [| split].
  - destruct (getattr_false (required (attrs fld))); split; congruence.
  - destruct (read_only (attrs fld)) as [[] |]; simpl; split; congruence.
  - intros ->. reflexivity.
Qed.

(** ** What the data and the models keep, whatever the fields *)

Lemma Dict_keys_set {A : Type} (k : string) (v : A) (d : list (string * A)) :
  Dict.keys (Dict.set k v d) =
    if bool_decide (k ∈ Dict.keys d) then Dict.keys d else Dict.keys d ++ [k].
Proof.
  unfold Dict.keys. induction d as [| [k0 v0] d IH]; simpl; [reflexivity |].
  destruct (decide (k = k0)) as [-> | Hne]; simpl.
  - rewrite bool_decide_eq_true_2 by left. reflexivity.
  - rewrite IH. destruct (bool_decide (k ∈ map fst d)) eqn:Hk.
    + apply bool_decide_eq_true in Hk.
      rewrite bool_decide_eq_true_2 by (right; exact Hk). reflexivity.
    + apply bool_decide_eq_false in Hk.
      rewrite bool_decide_eq_false_2; [reflexivity |].
      intros Hin. apply elem_of_cons in Hin as [? | ?]; contradiction.
Qed.

Lemma Dict_keys_set_NoDup {A : Type} (k : string) (v : A) (d : list (string * A)) :
  NoDup (Dict.keys d) -> NoDup (Dict.keys (Dict.set k v d)).
Proof.
  intros Hnd. rewrite Dict_keys_set. destruct (bool_decide (k ∈ Dict.keys d)) eqn:Hk.
  - exact Hnd.
  - apply bool_decide_eq_false in Hk. apply NoDup_app.
    split; [exact Hnd |]. split; [| apply NoDup_singleton].
    intros x Hx Hx'. apply elem_of_cons in Hx' as [-> | Hx']; [contradiction |].
    inversion Hx'.
Qed.

Lemma elem_of_Dict_keys_set {A : Type} (x k : string) (v : A) (d : list (string * A)) :
  x ∈ Dict.keys (Dict.set k v d) <-> x = k \/ x ∈ Dict.keys d.
Proof.
  rewrite Dict_keys_set. destruct (bool_decide (k ∈ Dict.keys d)) eqn:Hk.
  - apply bool_decide_eq_true in Hk. split; [intros H; right; exact H |].
    intros [-> | H]; assumption.
  - rewrite elem_of_app, elem_of_cons, elem_of_nil. tauto.
Qed.

(** The loop of [_get_serializer_fields] keeps the keys of [data['fields']]
    distinct and the three lists among them. *)
Lemma fold_add_field_keeps (fs : list (string * field)) :
  forall data,
    NoDup (Dict.keys (data_fields data)) ->
    (forall n, n ∈ data_required data \/ n ∈ data_write_only data
               \/ n ∈ data_read_only data ->
               n ∈ Dict.keys (data_fields data)) ->
    let data' := fold_left add_field fs data in
    NoDup (Dict.keys (data_fields data'))
    /\ (forall n, n ∈ Dict.keys (data_fields data')
                  <-> n ∈ Dict.keys (data_fields data) \/ n ∈ fs.*1)
    /\ (forall n, n ∈ data_required data' \/ n ∈ data_write_only data'
                  \/ n ∈ data_read_only data' ->
                  n ∈ Dict.keys (data_fields data')).
Proof.
  induction fs as [| [n0 f0] fs IH]; intros data Hnd Hsub; cbn [fold_left].
  - split; [exact Hnd |]. split; [| exact Hsub].
    intros n. simpl. rewrite elem_of_nil. tauto.
  - destruct (IH (add_field data (n0, f0))) as (Hnd' & Hkeys' & Hsub').
    + simpl. apply Dict_keys_set_NoDup. exact Hnd.
    + intros n. simpl. rewrite elem_of_Dict_keys_set. intros Hn.
      destruct (decide (n = n0)) as [-> | Hne]; [left; reflexivity |]. right.
      apply Hsub.
      destruct (getattr_false (required (attrs f0)));
        destruct (getattr_false (write_only (attrs f0)));
        destruct (getattr_false (read_only (attrs f0)));
        rewrite ?elem_of_app, ?elem_of_cons, ?elem_of_nil in Hn; tauto.
    + split; [exact Hnd' |]. split; [| exact Hsub'].
      intros n. rewrite Hkeys'. simpl. rewrite elem_of_Dict_keys_set, elem_of_cons.
      tauto.
Qed.

(** X5. Whatever the fields of a serializer, the data
    [_get_serializer_fields] returns has one schema for each field name and
    for nothing else, and every name in its 'required', 'write_only' and
    'read_only' lists is the name of one of these schemas. *)
Theorem data_lists_name_fields (s : serializer) :
  exists data,
    _get_serializer_fields (Some s) = Some data
    /\ NoDup (Dict.keys (data_fields data))
    /\ (forall n, n ∈ Dict.keys (data_fields data)
                  <-> n ∈ (get_fields (serializer_class s)).*1)
    /\ (forall n, n ∈ data_required data \/ n ∈ data_write_only data
                  \/ n ∈ data_read_only data ->
                  n ∈ Dict.keys (data_fields data)).
Proof.
  exists (serializer_fields s). split; [reflexivity |].
  destruct (fold_add_field_keeps (get_fields (serializer_class s)) empty_data)
    as (Hnd & Hkeys & Hsub).
  - constructor.
  - simpl. intros n. rewrite !elem_of_nil. tauto.
  - split; [exact Hnd |]. split; [| exact Hsub].
    intros n. unfold serializer_fields. rewrite Hkeys. simpl.
    rewrite elem_of_nil. tauto.
Qed.


(** ** What the walk finds, and what it does not *)

Lemma elem_of_obj_add (o x : obj) (s : list obj) :
  o ∈ obj_add x s -> o = x \/ o ∈ s.
Proof.
  unfold obj_add. destruct (obj_in x s); [intros H; right; exact H |].
  rewrite elem_of_app, elem_of_cons, elem_of_nil. tauto.
Qed.

Lemma elem_of_obj_update (o : obj) (s new : list obj) :
  o ∈ obj_update s new -> o ∈ s \/ o ∈ new.
Proof.
  unfold obj_update. revert s. induction new as [| x new IH]; intros s; simpl.
  - intros H. left. exact H.
  - intros H. apply IH in H as [H | H]; [| right; right; exact H].
    apply elem_of_obj_add in H as [-> | H]; [right; left | left; exact H].
Qed.

(** The loop over the fields adds nothing but instances of the classes of
    the serializer fields and what the recursive calls find. *)
Lemma each_field_sound
    (find : SerializerClass -> list obj -> nat -> list obj * nat)
    (found : list obj) (fields : list (string * field)) :
  (forall n fld many cls,
      (n, fld) ∈ fields -> kind fld = Serializer many cls ->
      forall found' next' o,
        o ∈ (find cls found' next').1 ->
        exists d, o.2 = SInstance d /\ nested_in cls d) ->
  forall oid set next o,
    o ∈ (each_field find found fields oid set next).1 ->
    o ∈ set
    \/ exists n fld many cls d,
         (n, fld) ∈ fields /\ kind fld = Serializer many cls
         /\ rtc nests cls d /\ o.2 = SInstance d.
Proof.
  induction fields as [| [n0 fld0] rest IH]; intros Hfind oid set next o Ho.
  - left. exact Ho.
  - rewrite each_field_cons in Ho.
    assert (Hfind' : forall n fld many cls,
               (n, fld) ∈ rest -> kind fld = Serializer many cls ->
               forall found' next' o,
                 o ∈ (find cls found' next').1 ->
                 exists d, o.2 = SInstance d /\ nested_in cls d).
    { intros n fld many cls Hin. apply (Hfind n fld many cls). right. exact Hin. }
    assert (Hrest : forall set' next',
               o ∈ (each_field find found rest (2 + oid) set' next').1 ->
               o ∈ set'
               \/ exists n fld many cls d,
                    (n, fld) ∈ (n0, fld0) :: rest /\ kind fld = Serializer many cls
                    /\ rtc nests cls d /\ o.2 = SInstance d).
    { intros set' next' H. apply (IH Hfind') in H as [H | (n & fld & many & cls & d & Hin & H)].
      - left. exact H.
      - right. exists n, fld, many, cls, d. split; [right; exact Hin | exact H]. }
    destruct (kind fld0) as [| many cls] eqn:Hk; [exact (Hrest _ _ Ho) |].
    cbv zeta in Ho.
    destruct (get_thing_field_object oid many cls) as (Hthing & _ & _).
    assert (Hadd : forall o', o' ∈ obj_add (get_thing (oid, field_object many cls)) set ->
               o' ∈ set
               \/ exists n fld many cls d,
                    (n, fld) ∈ (n0, fld0) :: rest /\ kind fld = Serializer many cls
                    /\ rtc nests cls d /\ o'.2 = SInstance d).
    { intros o' Ho'. apply elem_of_obj_add in Ho' as [-> | Ho']; [| left; exact Ho'].
      right. exists n0, fld0, many, cls, cls.
      split; [left |]. split; [exact Hk |]. split; [apply rtc_refl | exact Hthing]. }
    destruct (negb (obj_in (oid, field_object many cls) found)).
    + apply Hrest in Ho as [Ho | Ho]; [| right; exact Ho].
      apply elem_of_obj_update in Ho as [Ho | Ho]; [exact (Hadd o Ho) |].
      destruct (Hfind n0 fld0 many cls ltac:(left) Hk _ _ o Ho) as (d & Hd & cls' & Hcls' & Hrtc).
      right. exists n0, fld0, many, cls, d.
      split; [left |]. split; [exact Hk |]. split; [| exact Hd].
      apply (rtc_l _ _ cls'); assumption.
    + apply Hrest in Ho as [Ho | Ho]; [exact (Hadd o Ho) | right; exact Ho].
Qed.

Lemma find_in_class_sound (c : SerializerClass) :
  forall found set next o,
    o ∈ (find_in_class c found set next).1 ->
    o ∈ set \/ exists d, o.2 = SInstance d /\ nested_in c d.
Proof.
  induction c as [name fields IH] using SerializerClass_nested_ind.
  intros found set next o Ho.
  change (find_in_class (Class name fields) found set next)
    with (each_field (fun cls found' next' => find_in_class cls found' [] next')
            found fields next set (2 * length fields + next)) in Ho.
  apply each_field_sound in Ho as [Ho | (n & fld & many & cls & d & Hin & Hk & Hd & Ho)].
  - left. exact Ho.
  - right. exists d. split; [exact Ho |]. exists cls. split; [| exact Hd].
    exists n, fld, many. split; assumption.
  - intros n fld many cls Hin Hk found' next' o' Ho'.
    apply (IH n fld many cls Hin Hk) in Ho' as [Ho' | Ho']; [inversion Ho' | exact Ho'].
Qed.

Lemma _find_field_serializers_sound (classes : list SerializerClass)
    (found : list obj) :
  forall set next o,
    o ∈ (fold_left
           (fun '(serializers_set, next) c => find_in_class c found serializers_set next)
           classes (set, next)).1 ->
    o ∈ set \/ exists c d, c ∈ classes /\ nested_in c d /\ o.2 = SInstance d.
Proof.
  induction classes as [| c classes IH]; intros set next o Ho; cbn [fold_left] in Ho.
  - left. exact Ho.
  - destruct (find_in_class c found set next) as [set1 next1] eqn:Hc.
    apply IH in Ho as [Ho | (c' & d & Hc' & Hd & Ho)].
    + replace set1 with (find_in_class c found set next).1 in Ho by (rewrite Hc; reflexivity).
      apply find_in_class_sound in Ho as [Ho | (d & Hd & Hn)]; [left; exact Ho |].
      right. exists c, d. split; [left | split; assumption].
    + right. exists c', d. split; [right; exact Hc' | split; assumption].
Qed.

(** X7. [_find_field_serializers] returns instances only, and exactly one
    or more of each class nested, over any number of serializer fields, in
    one of the classes it is given: nothing of a class that is not nested in
    them, and not the given classes themselves unless they are nested
    too. *)
Theorem _find_field_serializers_finds_exactly (classes : list SerializerClass)
    (x : serializer) :
  x ∈ (_find_field_serializers classes [] 0).1.*2
  <-> exists c d, c ∈ classes /\ nested_in c d /\ x = SInstance d.
Proof.
  split.
  - intros Hx. apply list_elem_of_fmap in Hx as (o & -> & Ho).
    unfold _find_field_serializers in Ho.
    apply _find_field_serializers_sound in Ho as [Ho | Ho]; [inversion Ho | exact Ho].
  - intros (c & d & Hc & Hd & ->). exact (_find_field_serializers_finds classes c d Hc Hd).
Qed.

Lemma each_field_found_irrelevant
    (find : SerializerClass -> list obj -> nat -> list obj * nat)
    (found : list obj) (fields : list (string * field)) :
  forall oid set next,
    (forall o, o ∈ found -> o.1 < oid) ->
    each_field find found fields oid set next = each_field find [] fields oid set next.
Proof.
  induction fields as [| [n0 fld0] rest IH]; intros oid set next Hfound; [reflexivity |].
  rewrite !each_field_cons.
  assert (Hrest : forall set' next',
             each_field find found rest (2 + oid) set' next'
             = each_field find [] rest (2 + oid) set' next').
  { intros set' next'. apply IH. intros o Ho. specialize (Hfound o Ho). lia. }
  destruct (kind fld0) as [| many cls]; [apply Hrest |]. cbv zeta.
  assert (Hnotin : obj_in (oid, field_object many cls) found = false).
  { apply bool_decide_eq_false_2. simpl. intros Hin.
    apply list_elem_of_fmap in Hin as (o & Heq & Ho). specialize (Hfound o Ho). lia. }
  rewrite Hnotin. apply Hrest.
Qed.

Lemma each_field_next_le
    (find : SerializerClass -> list obj -> nat -> list obj * nat)
    (found : list obj) (fields : list (string * field)) :
  (forall n fld many cls,
      (n, fld) ∈ fields -> kind fld = Serializer many cls ->
      forall found' next', next' <= (find cls found' next').2) ->
  forall oid set next, next <= (each_field find found fields oid set next).2.
Proof.
  induction fields as [| [n0 fld0] rest IH]; intros Hfind oid set next; [simpl; lia |].
  rewrite each_field_cons.
  assert (Hrest : forall oid' set' next',
             next' <= (each_field find found rest oid' set' next').2).
  { apply IH. intros n fld many cls Hin. apply (Hfind n fld many cls). right. exact Hin. }
  destruct (kind fld0) as [| many cls] eqn:Hk; [apply Hrest |]. cbv zeta.
  destruct (negb (obj_in (oid, field_object many cls) found)); [| apply Hrest].
  etransitivity; [| apply Hrest]. apply (Hfind n0 fld0 many cls); [left | exact Hk].
Qed.

Lemma find_in_class_next_le (c : SerializerClass) :
  forall found set next, next <= (find_in_class c found set next).2.
Proof.
  induction c as [name fields IH] using SerializerClass_nested_ind.
  intros found set next.
  change (find_in_class (Class name fields) found set next)
    with (each_field (fun cls found' next' => find_in_class cls found' [] next')
            found fields next set (2 * length fields + next)).
  etransitivity; [| apply each_field_next_le].
  - lia.
  - intros n fld many cls Hin Hk found' next'. apply (IH n fld many cls Hin Hk).
Qed.

Lemma find_in_class_found_irrelevant (c : SerializerClass)
    (found set : list obj) (next : nat) :
  (forall o, o ∈ found -> o.1 < next) ->
  find_in_class c found set next = find_in_class c [] set next.
Proof.
  intros Hfound. destruct c as [name fields]. cbn [find_in_class].
  apply each_field_found_irrelevant. exact Hfound.
Qed.

(** X8. The set [_find_field_serializers] returns does not depend on
    [found_serializers] when the objects in it were made before the call
    (the default, the empty set, is such): a field object is new, so the
    test [field not in found_serializers] holds and no walk is cut short. *)
Theorem found_serializers_cuts_nothing (classes : list SerializerClass)
    (found : list obj) (next : nat) :
  (forall o, o ∈ found -> o.1 < next) ->
  _find_field_serializers classes found next = _find_field_serializers classes [] next.
Proof.
  intros Hfound. unfold _find_field_serializers.
  assert (Hloop : forall set next',
             (forall o, o ∈ found -> o.1 < next') ->
             fold_left
               (fun '(serializers_set, next) c =>
                  find_in_class c found serializers_set next)
               classes (set, next')
             = fold_left
                 (fun '(serializers_set, next) c =>
                    find_in_class c [] serializers_set next)
                 classes (set, next')).
  { clear next Hfound.
    induction classes as [| c classes IH]; intros set next Hfound; [reflexivity |].
    cbn [fold_left]. rewrite (find_in_class_found_irrelevant c found set next Hfound).
    pose proof (find_in_class_next_le c [] set next) as Hle.
    destruct (find_in_class c [] set next) as [set1 next1]. simpl in Hle.
    apply IH. intros o Ho. specialize (Hfound o Ho). lia. }
  apply Hloop. exact Hfound.
Qed.

(** ** The dictionary [get_models] returns *)

Lemma fold_register_models_sound (l : list serializer) :
  forall models k v,
    fold_left register_models l models !! k = Some v ->
    models !! k = Some v
    \/ exists s,
         s ∈ l
         /\ (k = serializer_name s \/ k = "Write" +:+ serializer_name s)
         /\ register_models ∅ s !! k = Some v.
Proof.
  induction l as [| s l IH]; intros models k v Hk; cbn [fold_left] in Hk.
  - left. exact Hk.
  - apply IH in Hk as [Hk | (s' & Hs' & Hnames & Hv)].
    + destruct (decide (serializer_name s = k)) as [Hr | Hr].
      * right. exists s. split; [left |]. split; [left; symmetry; exact Hr |].
        rewrite <- Hk. apply register_models_lookup_same. left. symmetry. exact Hr.
      * destruct (decide ("Write" +:+ serializer_name s = k)) as [Hw | Hw].
        -- right. exists s. split; [left |]. split; [right; symmetry; exact Hw |].
           rewrite <- Hk. apply register_models_lookup_same. right. symmetry. exact Hw.
        -- left. rewrite register_models_lookup_other in Hk; assumption.
    + right. exists s'. split; [right; exact Hs' | split; assumption].
Qed.

(** Every serializer of the set is one a method uses, an explicit one, or an
    instance of a class nested in one of them. *)
Lemma model_serializers_sound (apis : list Api) (x : serializer) :
  x ∈ model_serializers apis ->
  exists s,
    (used_by_method apis s \/ s ∈ SClass <$> explicit_serializers)
    /\ rtc nests (serializer_class s) (serializer_class x).
Proof.
  unfold model_serializers. cbv zeta.
  set (roots := set_update (_get_serializer_set apis) (SClass <$> explicit_serializers)).
  assert (Hroots : forall s, s ∈ roots ->
            used_by_method apis s \/ s ∈ SClass <$> explicit_serializers).
  { intros s Hs. apply elem_of_set_update in Hs.
    rewrite elem_of__get_serializer_set in Hs. exact Hs. }
  intros Hx. apply elem_of_app in Hx as [Hx | Hx].
  - exists x. split; [exact (Hroots x Hx) | apply rtc_refl].
  - apply list_elem_of_fmap in Hx as (o & -> & Ho).
    unfold _find_field_serializers in Ho.
    apply _find_field_serializers_sound in Ho as [Ho | (c & d & Hc & Hd & Ho)];
      [inversion Ho |].
    apply list_elem_of_fmap in Hc as (s & -> & Hs).
    exists s. split; [exact (Hroots s Hs) |].
    rewrite Ho. simpl. destruct Hd as (cls & Hcls & Hd).
    apply (rtc_l _ _ cls); assumption.
Qed.

(** X9. Every entry of the dictionary [get_models] returns is a registered
    response type, or the read or the write model of a serializer class that
    a method uses, that is explicit, or that is nested in one of these: there
    is no model of anything else. *)
Theorem get_models_has_nothing_else (apis : list Api) (st : gmap string value)
    (k : string) (v : value) :
  get_models apis st !! k = Some v ->
  st !! k = Some v
  \/ exists s c,
       (used_by_method apis s \/ s ∈ SClass <$> explicit_serializers)
       /\ rtc nests (serializer_class s) c
       /\ (k = class_name c \/ k = "Write" +:+ class_name c)
       /\ register_models ∅ (SClass c) !! k = Some v.
Proof.
  unfold get_models, get_models_over, fields_serializers.
  rewrite (left_id_L ∅ (∪)), lookup_union_Some_raw.
  intros [Hst | [_ Hk]]; [left; exact Hst |]. right.
  apply fold_register_models_sound in Hk as [Hk | (x & Hx & Hnames & Hv)].
  - rewrite lookup_empty in Hk. discriminate.
  - destruct (model_serializers_sound apis x Hx) as (s & Hs & Hrtc).
    exists s, (serializer_class x). split; [exact Hs |]. split; [exact Hrtc |].
    split; [exact Hnames |].
    rewrite <- (register_models_class ∅ x (SClass (serializer_class x)) eq_refl).
    exact Hv.
Qed.

(** X6. In the dictionary [get_models] returns, every model that is not a
    registered response type is a model of a serializer: its 'id' is its
    key, and every name of its 'required' list is a key of its 'properties',
    whatever the fields of the serializer. *)
Theorem required_names_are_properties (apis : list Api) (st : gmap string value)
    (k : string) (v : value) :
  get_models apis st !! k = Some v ->
  st !! k = None ->
  exists model required properties,
    v = VDict model
    /\ Dict.get "id" model = Some (VStr k)
    /\ Dict.get "required" model = Some (VList (VStr <$> required))
    /\ Dict.get "properties" model = Some (VDict properties)
    /\ forall n, n ∈ required -> n ∈ Dict.keys properties.
Proof.
  unfold get_models, get_models_over, fields_serializers.
  rewrite (left_id_L ∅ (∪)), lookup_union_Some_raw.
  intros [Hst | [_ Hk]] Hnone; [rewrite Hnone in Hst; discriminate |].
  apply fold_register_models_sound in Hk as [Hk | (s & _ & Hnames & Hv)];
    [rewrite lookup_empty in Hk; discriminate |].
  unfold register_models in Hv. cbv zeta in Hv. destruct Hnames as [-> | ->].
  - rewrite lookup_insert_eq in Hv. injection Hv as <-.
    eexists _, _, _. split; [reflexivity |]. split; [reflexivity |].
    split; [reflexivity |]. split; [reflexivity |]. intros n Hn. exact Hn.
  - rewrite lookup_insert_ne in Hv by (apply not_eq_sym, Write_name_ne).
    rewrite lookup_insert_eq in Hv. injection Hv as <-.
    eexists _, _, _. split; [reflexivity |]. split; [reflexivity |].
    split; [reflexivity |]. split; [reflexivity |].
    intros n Hn. apply list_elem_of_filter in Hn as [Hn _].
    apply str_in_true. destruct (str_in n _); [reflexivity | contradiction].
Qed.


Lemma models_after_lookup (l : list serializer) (s : serializer) (k : string) :
  (forall s x, s ∈ l -> x ∈ l ->
               serializer_class x = serializer_class s
               \/ (serializer_name x <> serializer_name s
                   /\ serializer_name x <> "Write" +:+ serializer_name s
                   /\ "Write" +:+ serializer_name x <> serializer_name s)) ->
  s ∈ l ->
  k = serializer_name s \/ k = "Write" +:+ serializer_name s ->
  models_after l !! k = register_models ∅ s !! k.
Proof.
  intros Hsafe Hs Hk. destruct (list_elem_of_split l s Hs) as (l1 & l2 & Hl).
  unfold models_after. rewrite Hl at 1. rewrite fold_left_app. cbn [fold_left].
  apply (fold_register_models_stable s l2).
  - intros x Hx. apply (Hsafe s x Hs). rewrite Hl. apply elem_of_app. right. right.
    exact Hx.
  - intros k' Hk'. apply register_models_lookup_same. exact Hk'.
  - exact Hk.
Qed.

(** X11. The dictionary [get_models] builds does not depend on the order in
    which the set of serializers is run over, as long as two serializers of
    the set that are not of one class have different names, neither being
    'Write' followed by the name of the other. *)
Theorem get_models_order_is_irrelevant (order order' : list serializer)
    (st : gmap string value) :
  (forall x, x ∈ order' <-> x ∈ order) ->
  (forall s x, s ∈ order -> x ∈ order ->
               serializer_class x = serializer_class s
               \/ (serializer_name x <> serializer_name s
                   /\ serializer_name x <> "Write" +:+ serializer_name s
                   /\ "Write" +:+ serializer_name x <> serializer_name s)) ->
  get_models_over order' st = get_models_over order st.
Proof.
  intros Hsame Hsafe.
  assert (Hsafe' : forall s x, s ∈ order' -> x ∈ order' ->
             serializer_class x = serializer_class s
             \/ (serializer_name x <> serializer_name s
                 /\ serializer_name x <> "Write" +:+ serializer_name s
                 /\ "Write" +:+ serializer_name x <> serializer_name s)).
  { intros s x Hs Hx. apply Hsafe; apply Hsame; assumption. }
  assert (Hmodels : models_after order' = models_after order).
  { apply map_eq. intros k.
    destruct (models_after order !! k) as [v |] eqn:Hk.
    - apply fold_register_models_sound in Hk as [Hk | (s & Hs & Hnames & Hv)].
      + rewrite lookup_empty in Hk. discriminate.
      + rewrite <- Hv. apply models_after_lookup; [exact Hsafe' | | exact Hnames].
        apply Hsame. exact Hs.
    - destruct (models_after order' !! k) as [v |] eqn:Hk'; [| reflexivity].
      apply fold_register_models_sound in Hk' as [Hk' | (s & Hs & Hnames & Hv)].
      + rewrite lookup_empty in Hk'. discriminate.
      + apply Hsame in Hs.
        rewrite (models_after_lookup order s k Hsafe Hs Hnames), Hv in Hk.
        discriminate. }
  unfold get_models_over. rewrite Hmodels. reflexivity.
Qed.

(** ** More on operations and on the registry *)


Lemma NoDup_set_add {A : Type} `{EqDecision A} (x : A) (s : list A) :
  NoDup s -> NoDup (set_add x s).
Proof.
  intros Hnd. unfold set_add. destruct (bool_decide (x ∈ s)) eqn:Hx; [exact Hnd |].
  apply bool_decide_eq_false in Hx. apply NoDup_app.
  split; [exact Hnd |]. split; [| apply NoDup_singleton].
  intros y Hy Hy'. apply elem_of_cons in Hy' as [-> | Hy']; [contradiction |].
  inversion Hy'.
Qed.

Lemma _get_serializer_set_NoDup (apis : list Api) : NoDup (_get_serializer_set apis).
Proof.
  unfold _get_serializer_set. generalize apis at 1 as all. intros all.
  assert (Hnil : NoDup (@nil serializer)) by constructor.
  revert Hnil. generalize (@nil serializer) as set.
  induction apis as [| api apis IH]; intros set Hnd; cbn [fold_left]; [exact Hnd |].
  apply IH. generalize (method_introspectors (get_introspector api all)) as ms.
  intros ms. revert set Hnd.
  induction ms as [| m ms IHms]; intros set Hnd; cbn [fold_left]; [exact Hnd |].
  apply IHms. destruct (_get_method_serializer m); [| exact Hnd].
  apply NoDup_set_add. exact Hnd.
Qed.

(** X13. [_get_serializer_set] returns each serializer class once, and
    exactly the response serializer classes of the methods whose docstring
    neither gives a response type nor omits the serializer; the methods
    [get_operations] skips count as the others do. *)
Theorem _get_serializer_set_is_the_method_serializers (apis : list Api) :
  NoDup (_get_serializer_set apis)
  /\ forall s,
       s ∈ _get_serializer_set apis
       <-> exists api m c,
             api ∈ apis
             /\ m ∈ method_introspectors (get_introspector api apis)
             /\ get_response_type (get_yaml_parser m) = None
             /\ should_omit_serializer (get_yaml_parser m) = false
             /\ get_response_serializer_class m = Some c
             /\ s = SClass c.
Proof.
  split; [apply _get_serializer_set_NoDup |].
  intros s. rewrite elem_of__get_serializer_set. unfold used_by_method. split.
  - intros (api & m & Hapi & Hm & Hs). exists api, m.
    unfold _get_method_serializer in Hs.
    destruct (get_response_type (get_yaml_parser m)) as [rt |] eqn:Hrt.
    + rewrite bool_decide_eq_true_2 in Hs by (eexists; reflexivity). discriminate.
    + rewrite bool_decide_eq_false_2 in Hs by (intros [x Hx]; discriminate).
      destruct (should_omit_serializer (get_yaml_parser m)); [discriminate |].
      destruct (get_response_serializer_class m) as [c |]; [| discriminate].
      exists c. simpl in Hs. injection Hs as <-. repeat split; assumption.
  - intros (api & m & c & Hapi & Hm & Hrt & Homit & Hc & ->). exists api, m.
    split; [exact Hapi |]. split; [exact Hm |].
    unfold _get_method_serializer. rewrite Hrt, Homit, Hc.
    rewrite bool_decide_eq_false_2 by (intros [x Hx]; discriminate). reflexivity.
Qed.

(** Two runs of the loop of [get_operations], from registries in a relation
    that every registration keeps, end in registries in the relation. *)
Lemma get_operations_loop_rel (R : gmap string value -> gmap string value -> Prop)
    (i : Introspector) (ms : list MethodIntrospector) :
  (forall p s m st st',
      R st st' ->
      R (_get_method_response_type p s i m st).2 (_get_method_response_type p s i m st').2) ->
  forall acc acc' st st',
    R st st' ->
    R (fold_left (get_operations_step i) ms (acc, st)).2
      (fold_left (get_operations_step i) ms (acc', st')).2.
Proof.
  intros Hkeep. induction ms as [| m ms IH]; intros acc acc' st st' HR; cbn [fold_left].
  - exact HR.
  - rewrite !get_operations_step_eq. destruct (skipped m); [apply IH; exact HR |].
    apply IH. rewrite !operation_of_snd. apply Hkeep. exact HR.
Qed.

Lemma generate_loop_rel (R : gmap string value -> gmap string value -> Prop)
    (all apis : list Api) :
  (forall p s i m st st',
      R st st' ->
      R (_get_method_response_type p s i m st).2 (_get_method_response_type p s i m st').2) ->
  forall acc acc' st st',
    R st st' ->
    R (fold_left (generate_step all) apis (acc, st)).2
      (fold_left (generate_step all) apis (acc', st')).2.
Proof.
  intros Hkeep. induction apis as [| api apis IH]; intros acc acc' st st' HR;
    cbn [fold_left].
  - exact HR.
  - rewrite !generate_step_eq. apply IH. unfold get_operations.
    apply get_operations_loop_rel; [| exact HR].
    intros p s m st0 st0'. apply Hkeep.
Qed.

(** What [generate] registers is what it registers from nothing, put over
    what was registered. *)
Lemma generate_registry_union (apis : list Api) (st : gmap string value) :
  (generate apis st).2 = (generate apis ∅).2 ∪ st.
Proof.
  unfold generate.
  apply (generate_loop_rel (fun a b => a = b ∪ st) apis apis).
  - intros p s i m st0 st0' ->. rewrite !_get_method_response_type_snd.
    destruct (get_response_type p); [| reflexivity].
    apply insert_union_l.
  - symmetry. apply (left_id_L ∅ (∪)).
Qed.

(** X14. [generate] adds to [explicit_response_types] the entries it would
    register from an empty registry, whatever was registered before: what
    was there stays, except under the names registered again. *)
Theorem generate_adds_the_same_entries (apis : list Api) (st : gmap string value) :
  (generate apis st).2 = (generate apis ∅).2 ∪ st
  /\ forall k,
       (generate apis st).2 !! k =
         match (generate apis ∅).2 !! k with
         | Some v => Some v
         | None => st !! k
         end.
Proof.
  split; [apply generate_registry_union |].
  intros k. rewrite generate_registry_union, lookup_union.
  destruct ((generate apis ∅).2 !! k), (st !! k); reflexivity.
Qed.

(** X15. Generating the documentation again changes nothing in
    [explicit_response_types]: the registry after two runs of [generate] is
    the registry after one, and the documentation is the same. *)
Theorem generate_twice_registers_the_same (apis : list Api) (st : gmap string value) :
  (generate apis (generate apis st).2).2 = (generate apis st).2
  /\ (generate apis (generate apis st).2).1 = (generate apis st).1.
Proof.
  split.
  - rewrite (generate_registry_union apis (generate apis st).2).
    rewrite (generate_registry_union apis st).
    rewrite (assoc_L (∪)), (idemp_L (∪)). reflexivity.
  - unfold generate.
    rewrite (generate_loop apis apis [] _ st), (generate_loop apis apis [] st st).
    reflexivity.
Qed.

Lemma get_operations_loop_sound (i : Introspector) (ms : list MethodIntrospector) :
  forall acc st k v,
    (fold_left (get_operations_step i) ms (acc, st)).2 !! k = Some v ->
    st !! k = Some v
    \/ exists m response_type,
         m ∈ ms /\ skipped m = false
         /\ get_response_type (get_yaml_parser m) = Some response_type
         /\ k = response_type_name i m
         /\ v = VDict [("id", VStr k); ("properties", response_type)].
Proof.
  induction ms as [| m ms IH]; intros acc st k v Hk; cbn [fold_left] in Hk.
  - left. exact Hk.
  - rewrite get_operations_step_eq in Hk.
    assert (Hrest : forall acc' st',
               (fold_left (get_operations_step i) ms (acc', st')).2 !! k = Some v ->
               st' !! k = Some v
               \/ exists m0 response_type,
                    m0 ∈ m :: ms /\ skipped m0 = false
                    /\ get_response_type (get_yaml_parser m0) = Some response_type
                    /\ k = response_type_name i m0
                    /\ v = VDict [("id", VStr k); ("properties", response_type)]).
    { intros acc' st' H. apply IH in H as [H | (m0 & rt & Hm0 & H)]; [left; exact H |].
      right. exists m0, rt. split; [right; exact Hm0 | exact H]. }
    destruct (skipped m) eqn:Hs; [exact (Hrest _ _ Hk) |].
    apply Hrest in Hk as [Hk | Hk]; [| right; exact Hk].
    rewrite operation_of_snd, _get_method_response_type_snd in Hk.
    destruct (get_response_type (get_yaml_parser m)) as [rt |] eqn:Hrt; [| left; exact Hk].
    destruct (decide (response_type_name i m = k)) as [<- | Hne].
    + rewrite lookup_insert_eq in Hk. injection Hk as <-.
      right. exists m, rt. split; [left |]. repeat split; assumption.
    + rewrite lookup_insert_ne in Hk by exact Hne. left. exact Hk.
Qed.

Lemma generate_loop_sound (all apis : list Api) :
  forall acc st k v,
    (fold_left (generate_step all) apis (acc, st)).2 !! k = Some v ->
    st !! k = Some v
    \/ exists api m response_type,
         api ∈ apis /\ m ∈ method_introspectors (get_introspector api all)
         /\ skipped m = false
         /\ get_response_type (get_yaml_parser m) = Some response_type
         /\ k = response_type_name (get_introspector api all) m
         /\ v = VDict [("id", VStr k); ("properties", response_type)].
Proof.
  induction apis as [| api apis IH]; intros acc st k v Hk; cbn [fold_left] in Hk.
  - left. exact Hk.
  - rewrite generate_step_eq in Hk.
    apply IH in Hk as [Hk | (api' & m & rt & Hapi' & H)].
    + unfold get_operations in Hk.
      apply get_operations_loop_sound in Hk as [Hk | (m & rt & Hm & H)]; [left; exact Hk |].
      right. exists api, m, rt. split; [left |]. split; [exact Hm | exact H].
    + right. exists api', m, rt. split; [right; exact Hapi' | exact H].
Qed.

(** X16. [generate] registers nothing but the response types the docstrings
    give: an entry of [explicit_response_types] after [generate] was there
    before, or it is, under the name made of the view and the method, the
    model of the response type of a method that is not skipped. *)
Theorem generate_registers_response_types_only (apis : list Api)
    (st : gmap string value) (k : string) (v : value) :
  (generate apis st).2 !! k = Some v ->
  st !! k = Some v
  \/ exists api m response_type,
       api ∈ apis /\ m ∈ method_introspectors (get_introspector api apis)
       /\ skipped m = false
       /\ get_response_type (get_yaml_parser m) = Some response_type
       /\ k = response_type_name (get_introspector api apis) m
       /\ v = VDict [("id", VStr k); ("properties", response_type)].
Proof. unfold generate. apply generate_loop_sound. Qed.

(** ** The name of a response type *)

(** Removing a one-character string is dropping the character. *)
Lemma remove_all_one_character (c : ascii) (s : string) :
  list_ascii_of_string (PyStr.remove_all (String c "") s)
  = filter (fun x => x <> c) (list_ascii_of_string s).
Proof.
  unfold PyStr.remove_all. induction s as [| x s IH]; [reflexivity |].
  cbn [PyStr.replace_from PyStr.startswith list_ascii_of_string String.length].
  rewrite filter_cons. destruct (decide (c = x)) as [-> | Hne].
  - rewrite decide_False by (intros H; apply H; reflexivity). simpl. exact IH.
  - rewrite decide_True by (intros H; apply Hne; symmetry; exact H).
    cbn [list_ascii_of_string]. f_equal. exact IH.
Qed.

(** X17. The name of a registered response type is the view part, then the
    method in title case with its underscores dropped, so without any
    underscore, then 'Response'. *)
Theorem response_type_name_method_part (i : Introspector) (m : MethodIntrospector) :
  exists method_part,
    response_type_name i m =
      PyStr.remove_all "View"
        (PyStr.remove_all "APIView"
           (PyStr.remove_all "ViewSet" (cb_name (callback i))))
        +:+ method_part +:+ "Response"
    /\ list_ascii_of_string method_part
       = filter (fun c => c <> "_"%char) (list_ascii_of_string (PyStr.title (method m)))
    /\ Forall (fun c => c <> "_"%char) (list_ascii_of_string method_part).
Proof.
  exists (PyStr.remove_all "_" (PyStr.title (method m))).
  split; [reflexivity |]. rewrite remove_all_one_character. split; [reflexivity |].
  apply Forall_forall. intros c Hc. apply list_elem_of_filter in Hc as [Hc _]. exact Hc.
Qed.


Lemma append_cons (c : ascii) (s suffix : string) :
  String c s +:+ suffix = String c (s +:+ suffix).
Proof. reflexivity. Qed.

Lemma replace_from_V_absent (rest s : string) :
  "V"%char ∉ list_ascii_of_string s ->
  PyStr.replace_from (String "V" rest) 0 s = s.
Proof.
  induction s as [| c s IH]; intros HV; [reflexivity |].
  cbn [list_ascii_of_string] in HV. apply not_elem_of_cons in HV as [Hc HV].
  cbn [PyStr.replace_from PyStr.startswith].
  rewrite decide_False by exact Hc.
  rewrite IH by exact HV. reflexivity.
Qed.

Lemma replace_from_V_suffix (rest s suffix : string) :
  "V"%char ∉ list_ascii_of_string s ->
  PyStr.replace_from (String "V" rest) 0 (s +:+ suffix)
  = s +:+ PyStr.replace_from (String "V" rest) 0 suffix.
Proof.
  induction s as [| c s IH]; intros HV; [reflexivity |].
  cbn [list_ascii_of_string] in HV. apply not_elem_of_cons in HV as [Hc HV].
  change (String c s +:+ suffix) with (String c (s +:+ suffix)).
  cbn [PyStr.replace_from PyStr.startswith].
  rewrite decide_False by exact Hc.
  rewrite IH by exact HV. reflexivity.
Qed.

Lemma append_empty_r (s : string) : s +:+ "" = s.
Proof.
  induction s as [| c s IH]; [reflexivity |].
  change (String c s +:+ "") with (String c (s +:+ "")). rewrite IH. reflexivity.
Qed.

(** A match of 'APIView' shows a 'V' at its fourth place. *)
Lemma startswith_APIView (s suffix : string) :
  "V"%char ∉ list_ascii_of_string s ->
  PyStr.startswith "APIView" (s +:+ suffix) = true ->
  s = "" \/ (s = "A" /\ PyStr.startswith "PIView" suffix = true)
  \/ (s = "AP" /\ PyStr.startswith "IView" suffix = true)
  \/ (s = "API" /\ PyStr.startswith "View" suffix = true).
Proof.
  intros HV Hm.
  destruct s as [| c0 s]; [left; reflexivity |]. right.
  rewrite append_cons in Hm; cbn [PyStr.startswith] in Hm.
  destruct (decide ("A"%char = c0)) as [<- | ?]; [| discriminate].
  destruct s as [| c1 s]; [left; split; [reflexivity | exact Hm] |]. right.
  rewrite append_cons in Hm; cbn [PyStr.startswith] in Hm.
  destruct (decide ("P"%char = c1)) as [<- | ?]; [| discriminate].
  destruct s as [| c2 s]; [left; split; [reflexivity | exact Hm] |]. right.
  rewrite append_cons in Hm; cbn [PyStr.startswith] in Hm.
  destruct (decide ("I"%char = c2)) as [<- | ?]; [| discriminate].
  destruct s as [| c3 s]; [split; [reflexivity | exact Hm] |].
  rewrite append_cons in Hm; cbn [PyStr.startswith] in Hm.
  destruct (decide ("V"%char = c3)) as [<- | ?]; [| discriminate].
  exfalso. apply HV. cbn [list_ascii_of_string]. do 3 right. left.
Qed.

Lemma replace_from_APIView_absent (s : string) :
  "V"%char ∉ list_ascii_of_string s ->
  PyStr.replace_from "APIView" 0 s = s.
Proof.
  induction s as [| c s IH]; intros HV; [reflexivity |].
  assert (Hno : PyStr.startswith "APIView" (String c s) = false).
  { destruct (PyStr.startswith "APIView" (String c s)) eqn:Hm; [| reflexivity].
    rewrite <- (append_empty_r (String c s)) in Hm.
    apply (startswith_APIView _ _ HV) in Hm
      as [H | [[_ H] | [[_ H] | [_ H]]]]; discriminate. }
  cbn [PyStr.replace_from]. rewrite Hno.
  cbn [list_ascii_of_string] in HV. apply not_elem_of_cons in HV as [_ HV].
  rewrite IH by exact HV. reflexivity.
Qed.

Lemma replace_from_APIView_suffix (s : string) :
  "V"%char ∉ list_ascii_of_string s ->
  PyStr.replace_from "APIView" 0 (s +:+ "APIView") = s.
Proof.
  induction s as [| c s IH]; intros HV; [reflexivity |].
  assert (Hno : PyStr.startswith "APIView" (String c s +:+ "APIView") = false).
  { destruct (PyStr.startswith "APIView" (String c s +:+ "APIView")) eqn:Hm;
      [| reflexivity].
    apply (startswith_APIView _ _ HV) in Hm
      as [H | [[_ H] | [[_ H] | [_ H]]]]; discriminate. }
  change (String c s +:+ "APIView") with (String c (s +:+ "APIView")) in *.
  cbn [PyStr.replace_from]. rewrite Hno.
  cbn [list_ascii_of_string] in HV. apply not_elem_of_cons in HV as [_ HV].
  rewrite IH by exact HV. reflexivity.
Qed.

Lemma replace_from_APIView_View (s : string) :
  "V"%char ∉ list_ascii_of_string s ->
  (forall pre, s <> pre +:+ "API") ->
  PyStr.replace_from "APIView" 0 (s +:+ "View") = s +:+ "View".
Proof.
  induction s as [| c s IH]; intros HV Hend; [reflexivity |].
  assert (Hno : PyStr.startswith "APIView" (String c s +:+ "View") = false).
  { destruct (PyStr.startswith "APIView" (String c s +:+ "View")) eqn:Hm;
      [| reflexivity].
    apply (startswith_APIView _ _ HV) in Hm
      as [H | [[_ H] | [[_ H] | [H _]]]]; try discriminate.
    exfalso. apply (Hend ""). exact H. }
  change (String c s +:+ "View") with (String c (s +:+ "View")) in *.
  cbn [PyStr.replace_from]. rewrite Hno.
  cbn [list_ascii_of_string] in HV. apply not_elem_of_cons in HV as [_ HV].
  rewrite IH; [reflexivity | exact HV |].
  intros pre Heq. apply (Hend (String c pre)). simpl. rewrite Heq. reflexivity.
Qed.

(** X18. For a view class named [base] followed by 'ViewSet', by 'APIView'
    or by 'View', or named [base] alone, where [base] has no 'V' (and, before
    'View', does not end with 'API'), the view part of the response type
    name is [base]: the name is [base], the method part and 'Response'. *)
Theorem response_type_name_drops_the_suffix
    (i : Introspector) (m : MethodIntrospector) (base : string) :
  "V"%char ∉ list_ascii_of_string base ->
  cb_name (callback i) = base +:+ "ViewSet"
  \/ cb_name (callback i) = base +:+ "APIView"
  \/ (cb_name (callback i) = base +:+ "View" /\ forall pre, base <> pre +:+ "API")
  \/ cb_name (callback i) = base ->
  response_type_name i m =
    base +:+ PyStr.remove_all "_" (PyStr.title (method m)) +:+ "Response".
Proof.
  intros HV Hname. unfold response_type_name. cbv zeta. f_equal.
  unfold PyStr.remove_all.
  destruct Hname as [-> | [-> | [[-> Hend] | ->]]].
  - rewrite (replace_from_V_suffix "iewSet" base "ViewSet" HV).
    cbn [PyStr.replace_from PyStr.startswith String.length]. vm_compute (PyStr.replace_from _ _ "ViewSet").
    rewrite append_empty_r, (replace_from_APIView_absent base HV).
    apply (replace_from_V_absent "iew" base HV).
  - rewrite (replace_from_V_suffix "iewSet" base "APIView" HV).
    vm_compute (PyStr.replace_from _ _ "APIView").
    rewrite (replace_from_APIView_suffix base HV).
    apply (replace_from_V_absent "iew" base HV).
  - rewrite (replace_from_V_suffix "iewSet" base "View" HV).
    vm_compute (PyStr.replace_from _ _ "View").
    rewrite (replace_from_APIView_View base HV Hend).
    rewrite (replace_from_V_suffix "iew" base "View" HV).
    vm_compute (PyStr.replace_from _ _ "View"). apply append_empty_r.
  - rewrite (replace_from_V_absent "iewSet" base HV).
    rewrite (replace_from_APIView_absent base HV).
    apply (replace_from_V_absent "iew" base HV).
Qed.


(** *** Types of operations and models *)



(** ** The walk when a class makes its fields itself *)

Lemma each_field_bounded_cons
    (find : SerializerClass -> list obj -> nat -> option (list obj * nat))
    (found : list obj) (n0 : string) (fld0 : field) (rest : list (string * field))
    (oid : nat) (set : list obj) (next : nat) :
  each_field_bounded find found ((n0, fld0) :: rest) oid set next =
    match kind fld0 with
    | Plain => each_field_bounded find found rest (2 + oid) set next
    | Serializer many cls =>
        let field := (oid, field_object many cls) in
        let set1 := obj_add (get_thing field) set in
        if negb (obj_in field found)
        then
          match find cls set1 next with
          | Some (new, next1) =>
              each_field_bounded find found rest (2 + oid) (obj_update set1 new) next1
          | None => None
          end
        else each_field_bounded find found rest (2 + oid) set1 next
    end.
Proof. reflexivity. Qed.

Lemma obj_in_newer (oid : nat) (s : serializer) (found : list obj) :
  (forall o, o ∈ found -> o.1 < oid) -> obj_in (oid, s) found = false.
Proof.
  intros Hfound. unfold obj_in. apply bool_decide_eq_false. cbn [fst].
  intros Hin. apply list_elem_of_fmap in Hin as (o & Heq & Ho).
  specialize (Hfound o Ho). lia.
Qed.

(** The objects a walk returns were made before the counter it returns. *)
Lemma each_field_bounded_ids
    (find : SerializerClass -> list obj -> nat -> option (list obj * nat))
    (found : list obj) (fields : list (string * field)) :
  (forall cls found' next' res,
      find cls found' next' = Some res ->
      next' <= res.2 /\ forall o, o ∈ res.1 -> o.1 < res.2) ->
  forall oid set next res,
    oid + 2 * length fields <= next ->
    (forall o, o ∈ set -> o.1 < next) ->
    each_field_bounded find found fields oid set next = Some res ->
    next <= res.2 /\ forall o, o ∈ res.1 -> o.1 < res.2.
Proof.
  intros Hfind. induction fields as [| [n0 fld0] rest IH];
    intros oid set next res Hoid Hset.
  - cbn. intros [= <-]. cbn. split; [lia | exact Hset].
  - rewrite each_field_bounded_cons. cbn [length] in Hoid.
    destruct (kind fld0) as [| many cls] eqn:Hk.
    + apply IH; [lia | exact Hset].
    + cbv zeta.
      destruct (get_thing_field_object oid many cls) as (_ & Hlt & _).
      assert (Hset1 : forall o, o ∈ obj_add (get_thing (oid, field_object many cls)) set ->
                                o.1 < next).
      { intros o Ho. apply elem_of_obj_add in Ho as [-> | Ho]; [lia | exact (Hset o Ho)]. }
      destruct (negb (obj_in (oid, field_object many cls) found)).
      * destruct (find cls (obj_add (get_thing (oid, field_object many cls)) set) next)
          as [[new next1] |] eqn:Hcall; [| discriminate].
        destruct (Hfind _ _ _ _ Hcall) as [Hle Hnew]. cbn [fst snd] in Hle, Hnew.
        intros Hres. destruct (IH (2 + oid) _ next1 res ltac:(lia)
                                 ltac:(intros o Ho;
                                       apply elem_of_obj_update in Ho as [Ho | Ho];
                                       [specialize (Hset1 o Ho); lia | exact (Hnew o Ho)])
                                 Hres) as [Hle' Hres'].
        split; [lia | exact Hres'].
      * apply IH; [lia | exact Hset1].
Qed.

Lemma find_in_class_bounded_ids (fields : SerializerClass -> list (string * field))
    (depth : nat) :
  forall c found set next res,
    (forall o, o ∈ set -> o.1 < next) ->
    find_in_class_bounded fields depth c found set next = Some res ->
    next <= res.2 /\ forall o, o ∈ res.1 -> o.1 < res.2.
Proof.
  induction depth as [| depth IH]; intros c found set next res Hset; [discriminate |].
  cbn [find_in_class_bounded]. intros Hres.
  destruct (each_field_bounded_ids
              (fun cls found' next' => find_in_class_bounded fields depth cls found' [] next')
              found (fields c)) with (oid := next) (set := set)
              (next := 2 * length (fields c) + next) (res := res) as [Hle Hids].
  - intros cls found' next' res'. apply IH. intros o Ho. inversion Ho.
  - lia.
  - intros o Ho. specialize (Hset o Ho). lia.
  - exact Hres.
  - split; [lia | exact Hids].
Qed.

(** *** Classes that nest in a cycle

    [R] holds of classes each of which has a serializer field of a class of
    [R] again: a class with a field of its own class, or classes that nest
    each other in a cycle. *)

Lemma each_field_bounded_overflows (R : SerializerClass -> Prop)
    (find : SerializerClass -> list obj -> nat -> option (list obj * nat))
    (found : list obj) (fields : list (string * field)) :
  (forall cls found' next' res,
      find cls found' next' = Some res ->
      next' <= res.2 /\ forall o, o ∈ res.1 -> o.1 < res.2) ->
  (forall cls found' next',
      R cls -> (forall o, o ∈ found' -> o.1 < next') -> find cls found' next' = None) ->
  (exists n fld many cls,
      (n, fld) ∈ fields /\ kind fld = Serializer many cls /\ R cls) ->
  forall oid set next,
    (forall o, o ∈ found -> o.1 < oid) ->
    oid + 2 * length fields <= next ->
    (forall o, o ∈ set -> o.1 < next) ->
    each_field_bounded find found fields oid set next = None.
Proof.
  intros Hids Hloop. induction fields as [| [n0 fld0] rest IH];
    intros (n & fld & many & cls & Hin & Hk & HR) oid set next Hfound Hoid Hset.
  - inversion Hin.
  - rewrite each_field_bounded_cons. cbn [length] in Hoid.
    destruct (kind fld0) as [| many0 cls0] eqn:Hk0.
    + apply elem_of_cons in Hin as [Heq | Hin].
      * injection Heq as -> ->. rewrite Hk in Hk0. discriminate.
      * apply IH; [exists n, fld, many, cls; auto | | lia | exact Hset].
        intros o Ho. specialize (Hfound o Ho). lia.
    + cbv zeta. rewrite (obj_in_newer oid _ found Hfound). cbn [negb].
      destruct (get_thing_field_object oid many0 cls0) as (_ & Hlt & _).
      assert (Hset1 : forall o, o ∈ obj_add (get_thing (oid, field_object many0 cls0)) set ->
                                o.1 < next).
      { intros o Ho. apply elem_of_obj_add in Ho as [-> | Ho]; [lia | exact (Hset o Ho)]. }
      apply elem_of_cons in Hin as [Heq | Hin].
      * injection Heq as -> ->. rewrite Hk in Hk0. injection Hk0 as -> ->.
        rewrite (Hloop cls0 _ next HR Hset1). reflexivity.
      * destruct (find cls0 (obj_add (get_thing (oid, field_object many0 cls0)) set) next)
          as [[new next1] |] eqn:Hcall; [| reflexivity].
        destruct (Hids _ _ _ _ Hcall) as [Hle Hnew]. cbn [fst snd] in Hle, Hnew.
        apply IH; [exists n, fld, many, cls; auto | | lia |].
        -- intros o Ho. specialize (Hfound o Ho). lia.
        -- intros o Ho. apply elem_of_obj_update in Ho as [Ho | Ho];
             [specialize (Hset1 o Ho); lia | exact (Hnew o Ho)].
Qed.

Lemma find_in_class_bounded_overflows
    (fields : SerializerClass -> list (string * field)) (R : SerializerClass -> Prop) :
  (forall c, R c ->
             exists n fld many cls,
               (n, fld) ∈ fields c /\ kind fld = Serializer many cls /\ R cls) ->
  forall depth c found set next,
    R c ->
    (forall o, o ∈ found -> o.1 < next) ->
    (forall o, o ∈ set -> o.1 < next) ->
    find_in_class_bounded fields depth c found set next = None.
Proof.
  intros Hcycle. induction depth as [| depth IH]; intros c found set next HR Hfound Hset;
    [reflexivity |].
  cbn [find_in_class_bounded].
  apply (each_field_bounded_overflows R).
  - intros cls found' next' res. apply find_in_class_bounded_ids.
    intros o Ho. inversion Ho.
  - intros cls found' next' HRcls Hfound'. apply IH; [exact HRcls | exact Hfound' |].
    intros o Ho. inversion Ho.
  - exact (Hcycle c HR).
  - exact Hfound.
  - lia.
  - intros o Ho. specialize (Hset o Ho). lia.
Qed.

Lemma fold_left_bounded_None
    (fields : SerializerClass -> list (string * field)) (depth : nat)
    (found : list obj) (classes : list SerializerClass) :
  fold_left
    (fun acc c =>
       match acc with
       | Some (serializers_set, next) =>
           find_in_class_bounded fields depth c found serializers_set next
       | None => None
       end)
    classes None = None.
Proof. induction classes as [| c classes IH]; [reflexivity | exact IH]. Qed.

Lemma _find_field_serializers_bounded_overflows
    (fields : SerializerClass -> list (string * field)) (R : SerializerClass -> Prop) :
  (forall c, R c ->
             exists n fld many cls,
               (n, fld) ∈ fields c /\ kind fld = Serializer many cls /\ R cls) ->
  forall depth classes c next,
    c ∈ classes -> R c ->
    _find_field_serializers_bounded fields depth classes [] next = None.
Proof.
  intros Hcycle depth classes c next Hc HR.
  unfold _find_field_serializers_bounded. destruct depth as [| depth]; [reflexivity |].
  assert (Hloop : forall set next',
             (forall o, o ∈ set -> o.1 < next') ->
             fold_left
               (fun acc c =>
                  match acc with
                  | Some (serializers_set, next) =>
                      find_in_class_bounded fields (S depth) c [] serializers_set next
                  | None => None
                  end)
               classes (Some (set, next')) = None).
  { induction classes as [| c0 classes IH]; intros set next' Hset; [inversion Hc |].
    cbn [fold_left].
    apply elem_of_cons in Hc as [<- | Hc].
    - rewrite (find_in_class_bounded_overflows fields R Hcycle (S depth) c [] set next' HR)
        by (first [exact Hset | intros o Ho; inversion Ho]).
      apply fold_left_bounded_None.
    - destruct (find_in_class_bounded fields (S depth) c0 [] set next')
        as [[set1 next1] |] eqn:Hcall; [| apply fold_left_bounded_None].
      destruct (find_in_class_bounded_ids fields (S depth) c0 [] set next' _ Hset Hcall)
        as [_ Hset1].
      apply (IH Hc). exact Hset1. }
  apply Hloop. intros o Ho. inversion Ho.
Qed.

(** C3. The nested serializer graph is not walked to closure when it has a
    cycle.  For classes each of which gets from [get_fields] a serializer of
    one of them (a class with a field of its own class is one), and a
    serializer of such a class that a method uses or that is explicit, the
    statements of [get_models] that build the set of serializers end in the
    [RecursionError] whatever the depth of calls the interpreter allows:
    the field objects [get_fields] makes are new, the test
    [field not in found_serializers] never fails, and the walk enters the
    class again and again.  [get_models] returns no model then. *)
Theorem get_models_overflows_on_cyclic_nesting
    (fields : SerializerClass -> list (string * field)) (R : SerializerClass -> Prop)
    (apis : list Api) (s : serializer) (depth : nat) :
  (forall c, R c ->
             exists n fld many cls,
               (n, fld) ∈ fields c /\ kind fld = Serializer many cls /\ R cls) ->
  used_by_method apis s \/ s ∈ SClass <$> explicit_serializers ->
  R (serializer_class s) ->
  model_serializers_bounded fields depth apis = None.
Proof.
  intros Hcycle Hs HR. unfold model_serializers_bounded.
  rewrite (_find_field_serializers_bounded_overflows fields R Hcycle depth _
             (serializer_class s) 0); [reflexivity | | exact HR].
  apply list_elem_of_fmap. exists s. split; [reflexivity |].
  apply elem_of_set_update. destruct Hs as [Hs | Hs]; [left | right; exact Hs].
  apply elem_of__get_serializer_set. exact Hs.
Qed.


(** *** Classes with their declared fields *)

Lemma each_field_bounded_structural
    (find : SerializerClass -> list obj -> nat -> list obj * nat)
    (find_bounded : SerializerClass -> list obj -> nat -> option (list obj * nat))
    (found : list obj) (fields : list (string * field)) :
  (forall n fld many cls,
      (n, fld) ∈ fields -> kind fld = Serializer many cls ->
      forall found' next', find_bounded cls found' next' = Some (find cls found' next')) ->
  forall oid set next,
    each_field_bounded find_bounded found fields oid set next
    = Some (each_field find found fields oid set next).
Proof.
  induction fields as [| [n0 fld0] rest IH]; intros Hfind oid set next; [reflexivity |].
  rewrite each_field_bounded_cons, each_field_cons.
  assert (Hrest : forall n fld many cls,
             (n, fld) ∈ rest -> kind fld = Serializer many cls ->
             forall found' next',
               find_bounded cls found' next' = Some (find cls found' next')).
  { intros n fld many cls Hin. apply (Hfind n fld many cls). right. exact Hin. }
  destruct (kind fld0) as [| many cls] eqn:Hk; [apply IH; exact Hrest |].
  cbv zeta. destruct (negb (obj_in (oid, field_object many cls) found));
    [| apply IH; exact Hrest].
  rewrite (Hfind n0 fld0 many cls ltac:(left) Hk).
  destruct (find cls (obj_add (get_thing (oid, field_object many cls)) set) next)
    as [new next1].
  apply IH. exact Hrest.
Qed.

(** A depth that is enough for the classes of the serializer fields of a
    list of fields. *)
Lemma enough_depth_for_fields (fields : list (string * field)) :
  (forall n fld many cls,
      (n, fld) ∈ fields -> kind fld = Serializer many cls ->
      exists enough, forall depth, enough <= depth ->
        forall found set next,
          find_in_class_bounded get_fields depth cls found set next
          = Some (find_in_class cls found set next)) ->
  exists enough, forall depth, enough <= depth ->
    forall n fld many cls,
      (n, fld) ∈ fields -> kind fld = Serializer many cls ->
      forall found set next,
        find_in_class_bounded get_fields depth cls found set next
        = Some (find_in_class cls found set next).
Proof.
  induction fields as [| [n0 fld0] rest IH]; intros Hall.
  - exists 0. intros depth _ n fld many cls Hin. inversion Hin.
  - destruct IH as (enough & Hrest).
    { intros n fld many cls Hin. apply (Hall n fld many cls). right. exact Hin. }
    destruct (kind fld0) as [| many0 cls0] eqn:Hk0.
    + exists enough. intros depth Hdepth n fld many cls Hin Hk.
      apply elem_of_cons in Hin as [Heq | Hin].
      * injection Heq as -> ->. rewrite Hk in Hk0. discriminate.
      * exact (Hrest depth Hdepth n fld many cls Hin Hk).
    + destruct (Hall n0 fld0 many0 cls0 ltac:(left) Hk0) as (enough0 & Hhead).
      exists (enough0 `max` enough). intros depth Hdepth n fld many cls Hin Hk.
      apply elem_of_cons in Hin as [Heq | Hin].
      * injection Heq as -> ->. rewrite Hk in Hk0. injection Hk0 as -> ->.
        apply Hhead. lia.
      * apply (Hrest depth ltac:(lia) n fld many cls Hin Hk).
Qed.

Lemma find_in_class_bounded_structural (c : SerializerClass) :
  exists enough, forall depth, enough <= depth ->
    forall found set next,
      find_in_class_bounded get_fields depth c found set next
      = Some (find_in_class c found set next).
Proof.
  induction c as [name fields IH] using SerializerClass_nested_ind.
  destruct (enough_depth_for_fields fields IH) as (enough & Hfields).
  exists (S enough). intros depth Hdepth found set next.
  destruct depth as [| depth]; [lia |].
  cbn [find_in_class_bounded find_in_class get_fields].
  apply each_field_bounded_structural.
  intros n fld many cls Hin Hk found' next'.
  apply (Hfields depth ltac:(lia) n fld many cls Hin Hk).
Qed.

Lemma _find_field_serializers_bounded_structural (classes : list SerializerClass) :
  exists enough, forall depth, enough <= depth ->
    forall found next,
      _find_field_serializers_bounded get_fields depth classes found next
      = Some (_find_field_serializers classes found next).
Proof.
  assert (Hloop : exists enough, forall depth, enough <= depth ->
            forall found set next,
              fold_left
                (fun acc c =>
                   match acc with
                   | Some (serializers_set, next) =>
                       find_in_class_bounded get_fields depth c found serializers_set next
                   | None => None
                   end)
                classes (Some (set, next))
              = Some (fold_left
                        (fun '(serializers_set, next) c =>
                           find_in_class c found serializers_set next)
                        classes (set, next))).
  { induction classes as [| c classes (enough & IH)].
    - exists 0. reflexivity.
    - destruct (find_in_class_bounded_structural c) as (enough0 & Hc).
      exists (enough0 `max` enough). intros depth Hdepth found set next.
      cbn [fold_left]. rewrite (Hc depth ltac:(lia)).
      destruct (find_in_class c found set next) as [set1 next1].
      apply (IH depth ltac:(lia)). }
  destruct Hloop as (enough & Hloop). exists (S enough).
  intros depth Hdepth found next. unfold _find_field_serializers_bounded.
  destruct depth as [| depth]; [lia |].
  apply (Hloop (S depth) ltac:(lia)).
Qed.

(** X21. When every class gives its declared fields, a finite tree of
    nested classes, the statements of [get_models] that build the set of
    serializers return once the interpreter allows calls deep enough, and
    they return the set the walk by recursion on the classes gives. *)
Theorem model_serializers_bounded_returns (apis : list Api) :
  exists enough, forall depth, enough <= depth ->
    model_serializers_bounded get_fields depth apis = Some (model_serializers apis).
Proof.
  destruct (_find_field_serializers_bounded_structural
              (serializer_class <$>
                 set_update (_get_serializer_set apis) (SClass <$> explicit_serializers)))
    as (enough & Hwalk).
  exists enough. intros depth Hdepth.
  unfold model_serializers_bounded, model_serializers.
  rewrite (Hwalk depth Hdepth).
  destruct (_find_field_serializers _ [] 0) as [found next]. reflexivity.
Qed.

End Generator.

(** ** The generator on the example project *)

Import Examples.

Local Abbreviation fields_of :=
  (_get_serializer_fields VERSION PRIMITIVES get_data_type get_default_value).
Local Abbreviation schema :=
  (schema_item VERSION PRIMITIVES get_data_type get_default_value).
Local Abbreviation models_of :=
  (models_after VERSION PRIMITIVES get_data_type get_default_value).
Local Abbreviation models_over :=
  (get_models_over VERSION PRIMITIVES get_data_type get_default_value).
Local Abbreviation all_models :=
  (get_models VERSION PRIMITIVES get_data_type get_default_value
     WrappedAPIViewIntrospector ViewSetIntrospector APIViewIntrospector
     explicit_serializers).
Local Abbreviation serializers_of :=
  (model_serializers VERSION WrappedAPIViewIntrospector ViewSetIntrospector
     APIViewIntrospector explicit_serializers).
Local Abbreviation introspector_of :=
  (get_introspector WrappedAPIViewIntrospector ViewSetIntrospector APIViewIntrospector).
Local Abbreviation operations_of :=
  (get_operations WrappedAPIViewIntrospector ViewSetIntrospector APIViewIntrospector).
Local Abbreviation generate_docs :=
  (generate get_view_description WrappedAPIViewIntrospector ViewSetIntrospector
     APIViewIntrospector).
Local Abbreviation posts_api := (mkApi "/posts/" "^posts/$" PostViewSet).
Local Abbreviation stats_api := (mkApi "/stats/" "^stats/$" ViewerStatsView).

Local Ltac by_computation := apply (bool_decide_unpack _); vm_compute; exact I.

(** The models of [UserSerializer], registered after those of
    [PostSerializer]. *)
Lemma user_models_witness :
  NoDup (get_fields UserSerializer).*1
  /\ (exists w,
         models_of ([SClass PostSerializer] ++ [SInstance UserSerializer])
           !! "WriteUserSerializer" = Some (VDict w)
         /\ Dict.get "id" w = Some (VStr "WriteUserSerializer")
         /\ Dict.get "properties" w =
              Some (VDict (schema <$>
                     filter (fun nf => negb (getattr_false (read_only (attrs nf.2))))
                            (get_fields UserSerializer))))
  /\ (exists r,
         models_of ([SClass PostSerializer] ++ [SInstance UserSerializer])
           !! "UserSerializer" = Some (VDict r)
         /\ Dict.get "id" r = Some (VStr "UserSerializer")
         /\ Dict.get "properties" r =
              Some (VDict (schema <$>
                     filter (fun nf => negb (getattr_false (write_only (attrs nf.2))))
                            (get_fields UserSerializer)))).
Proof.
  assert (Hnd : NoDup (get_fields UserSerializer).*1) by by_computation.
  split; [exact Hnd |].
  destruct (get_models_registers_write_and_read_models
              VERSION PRIMITIVES get_data_type get_default_value
              [SClass PostSerializer] (SInstance UserSerializer) Hnd)
    as (Hw & Hr & _).
  split; [exact Hw | exact Hr].
Defined.

(** The 'required' lists of the two models of [UserSerializer] in the models
    of the example project. *)
Lemma user_required_witness :
  NoDup (get_fields UserSerializer).*1
  /\ (forall x, x ∈ [SInstance ProfileSerializer; SInstance CommentSerializer;
                     SInstance CommentSerializer] ->
                 serializer_class x = UserSerializer
                 \/ (serializer_name x <> "UserSerializer"
                     /\ serializer_name x <> "WriteUserSerializer"
                     /\ "Write" +:+ serializer_name x <> "UserSerializer"))
  /\ (generate_docs apis ∅).2 !! "UserSerializer" = None
  /\ (generate_docs apis ∅).2 !! "WriteUserSerializer" = None
  /\ (exists r properties,
         all_models apis (generate_docs apis ∅).2 !! "UserSerializer" = Some (VDict r)
         /\ Dict.get "properties" r = Some (VDict properties)
         /\ Dict.get "required" r = Some (VList (VStr <$> Dict.keys properties))
         /\ Dict.keys properties = ["id"; "username"; "profile"])
  /\ (exists w properties,
         all_models apis (generate_docs apis ∅).2 !! "WriteUserSerializer"
           = Some (VDict w)
         /\ Dict.get "properties" w = Some (VDict properties)
         /\ Dict.keys properties = ["username"; "password"; "profile"]
         /\ Dict.get "required" w = Some (VList [VStr "username"; VStr "password"])).
Proof.
  assert (Hnd : NoDup (get_fields UserSerializer).*1) by by_computation.
  assert (Hrest : forall x,
            x ∈ [SInstance ProfileSerializer; SInstance CommentSerializer;
                 SInstance CommentSerializer] ->
            serializer_class x = UserSerializer
            \/ (serializer_name x <> "UserSerializer"
                /\ serializer_name x <> "WriteUserSerializer"
                /\ "Write" +:+ serializer_name x <> "UserSerializer")).
  { intros x Hx.
    repeat (apply elem_of_cons in Hx as [-> | Hx]);
      try (apply elem_of_nil in Hx; destruct Hx);
      right; repeat split; vm_compute; discriminate. }
  assert (Hr : (generate_docs apis ∅).2 !! "UserSerializer" = None)
    by (vm_compute; reflexivity).
  assert (Hw : (generate_docs apis ∅).2 !! "WriteUserSerializer" = None)
    by (vm_compute; reflexivity).
  split; [exact Hnd |]. split; [exact Hrest |]. split; [exact Hr |]. split; [exact Hw |].
  exact (get_models_required_lists
           VERSION PRIMITIVES get_data_type get_default_value
           [SClass PostSerializer]
           [SInstance ProfileSerializer; SInstance CommentSerializer;
            SInstance CommentSerializer]
           (SInstance UserSerializer) (generate_docs apis ∅).2 Hnd Hrest Hr Hw).
Defined.

(** The write-only list of comments of [PostSerializer]: an array of
    references to the write model of the comments. *)
Lemma attachments_witness :
  NoDup (get_fields PostSerializer).*1
  /\ ("attachments", nested true false true false CommentSerializer)
       ∈ get_fields PostSerializer
  /\ exists data f,
       fields_of (Some (SClass PostSerializer)) = Some data
       /\ Dict.get "attachments" (data_fields data) = Some (VDict f)
       /\ Dict.get "type" f = Some (VStr "array")
       /\ Dict.get "items" f = Some (VDict [("$ref", VStr "WriteCommentSerializer")]).
Proof.
  assert (Hnd : NoDup (get_fields PostSerializer).*1) by by_computation.
  assert (Hin : ("attachments", nested true false true false CommentSerializer)
                  ∈ get_fields PostSerializer) by (repeat constructor).
  split; [exact Hnd |]. split; [exact Hin |].
  exact (serializer_field_type_and_items
           VERSION PRIMITIVES get_data_type get_default_value
           (SClass PostSerializer) "attachments"
           (nested true false true false CommentSerializer) true CommentSerializer
           Hnd Hin eq_refl).
Defined.

(** The text of a comment: a plain string field. *)
Lemma comment_text_witness :
  NoDup (get_fields CommentSerializer).*1
  /\ ("text", plain "CharField" false false true) ∈ get_fields CommentSerializer
  /\ exists data f,
       fields_of (Some (SInstance CommentSerializer)) = Some data
       /\ Dict.get "text" (data_fields data) = Some (VDict f)
       /\ Dict.get "format" f = Some (VStr "string")
       /\ (is_BaseSerializer (plain "CharField" false false true) = false ->
           Dict.get "type" f = Some (VStr "string")).
Proof.
  assert (Hnd : NoDup (get_fields CommentSerializer).*1) by by_computation.
  assert (Hin : ("text", plain "CharField" false false true)
                  ∈ get_fields CommentSerializer) by (repeat constructor).
  split; [exact Hnd |]. split; [exact Hin |].
  exact (field_format_and_type
           VERSION PRIMITIVES get_data_type get_default_value
           (SInstance CommentSerializer) "text" (plain "CharField" false false true)
           Hnd Hin).
Defined.

(** The rating of a comment: an integer field with both bounds. *)
Lemma rating_witness :
  NoDup (get_fields CommentSerializer).*1
  /\ ("rating", rating) ∈ get_fields CommentSerializer
  /\ get_data_type rating = "integer"
  /\ exists data f,
       fields_of (Some (SClass CommentSerializer)) = Some data
       /\ Dict.get "rating" (data_fields data) = Some (VDict f)
       /\ (VInt 5 <> VNone ->
           Dict.get "minimum" f = Some (VInt 1) /\ Dict.get "maximum" f = Some (VInt 5))
       /\ (VInt 5 = VNone ->
           Dict.get "minimum" f = None /\ Dict.get "maximum" f = None).
Proof.
  assert (Hnd : NoDup (get_fields CommentSerializer).*1) by by_computation.
  assert (Hin : ("rating", rating) ∈ get_fields CommentSerializer)
    by (repeat constructor).
  split; [exact Hnd |]. split; [exact Hin |]. split; [reflexivity |].
  exact (integer_field_minimum_and_maximum
           VERSION PRIMITIVES get_data_type get_default_value
           (SClass CommentSerializer) "rating" rating Hnd Hin eq_refl).
Defined.

(** The operation of the statistics view has all seven keys. *)
Lemma stats_operation_witness :
  VDict (operation_of (introspector_of stats_api apis) viewer_stats ∅).1
    ∈ (operations_of stats_api (Some apis) ∅).1
  /\ exists m d,
       m ∈ method_introspectors (introspector_of stats_api (default [stats_api] (Some apis)))
       /\ skipped m = false
       /\ VDict (operation_of (introspector_of stats_api apis) viewer_stats ∅).1 = VDict d
       /\ (forall k, k ∈ ["method"; "summary"; "nickname"; "notes"; "type"] ->
                     k ∈ Dict.keys d)
       /\ ("parameters" ∈ Dict.keys d <-> discover_parameters (get_yaml_parser m) <> [])
       /\ ("responseMessages" ∈ Dict.keys d
           <-> get_response_messages (get_yaml_parser m) <> []).
Proof.
  assert (Hop : VDict (operation_of (introspector_of stats_api apis) viewer_stats ∅).1
                  ∈ (operations_of stats_api (Some apis) ∅).1)
    by (vm_compute; repeat constructor).
  split; [exact Hop |].
  exact (operation_dictionary_keys
           WrappedAPIViewIntrospector ViewSetIntrospector APIViewIntrospector
           stats_api (Some apis) ∅ _ Hop).
Defined.

(** Creating a post: the YAML of its docstring does not parse, the operation
    is there and its notes end with the error. *)
Lemma create_post_notes_witness :
  create_post ∈ method_introspectors
                  (introspector_of posts_api (default [posts_api] (Some apis)))
  /\ skipped create_post = false
  /\ exists d,
       VDict d ∈ (operations_of posts_api (Some apis) ∅).1
       /\ Dict.get "method" d = Some (VStr "POST")
       /\ Dict.get "nickname" d = Some (VStr "Post_create")
       /\ Dict.get "notes" d =
            Some (VStr ("Creates a post.<pre>YAMLError:" +:+ newline
                        +:+ " mapping values are not allowed here</pre>")).
Proof.
  assert (Hm : create_post ∈ method_introspectors
                 (introspector_of posts_api (default [posts_api] (Some apis))))
    by (vm_compute; repeat constructor).
  split; [exact Hm |]. split; [reflexivity |].
  exact (yaml_error_is_appended_to_notes
           WrappedAPIViewIntrospector ViewSetIntrospector APIViewIntrospector
           posts_api (Some apis) ∅ create_post Hm eq_refl).
Defined.


(** The profile of the author of a post is two fields away from the
    serializer the method uses; its models are there, here with the set run
    over backwards. *)
Lemma profile_models_witness :
  registered_types_ok (generate_docs apis ∅).2
  /\ (forall x, x ∈ reverse (serializers_of apis) <-> x ∈ serializers_of apis)
  /\ (used_by_method WrappedAPIViewIntrospector ViewSetIntrospector
        APIViewIntrospector apis (SClass PostSerializer)
      \/ SClass PostSerializer ∈ SClass <$> explicit_serializers)
  /\ rtc nests PostSerializer ProfileSerializer
  /\ (exists model,
         models_over (reverse (serializers_of apis)) (generate_docs apis ∅).2
           !! "ProfileSerializer" = Some (VDict model)
         /\ Dict.get "id" model = Some (VStr "ProfileSerializer"))
  /\ (exists model,
         models_over (reverse (serializers_of apis)) (generate_docs apis ∅).2
           !! "WriteProfileSerializer" = Some (VDict model)
         /\ Dict.get "id" model = Some (VStr "WriteProfileSerializer")).
Proof.
  assert (Hok : registered_types_ok (generate_docs apis ∅).2)
    by (apply generate_registered_types_ok, registered_types_ok_empty).
  assert (Horder : forall x, x ∈ reverse (serializers_of apis) <-> x ∈ serializers_of apis)
    by (intros x; apply elem_of_reverse).
  assert (Hused : used_by_method WrappedAPIViewIntrospector ViewSetIntrospector
                    APIViewIntrospector apis (SClass PostSerializer)
                  \/ SClass PostSerializer ∈ SClass <$> explicit_serializers).
  { left. exists posts_api, list_posts.
    split; [repeat constructor |]. split; [vm_compute; repeat constructor | reflexivity]. }
  assert (Hnests : rtc nests PostSerializer ProfileSerializer).
  { apply (rtc_l _ _ UserSerializer).
    - exists "author", (nested false true false false UserSerializer), false.
      split; [repeat constructor | reflexivity].
    - apply rtc_once.
      exists "profile", (nested false false false false ProfileSerializer), false.
      split; [repeat constructor | reflexivity]. }
  split; [exact Hok |]. split; [exact Horder |]. split; [exact Hused |].
  split; [exact Hnests |].
  exact (get_models_walks_nested_serializers
           VERSION PRIMITIVES get_data_type get_default_value
           WrappedAPIViewIntrospector ViewSetIntrospector APIViewIntrospector
           explicit_serializers apis (generate_docs apis ∅).2
           (reverse (serializers_of apis)) (SClass PostSerializer) ProfileSerializer
           Hok Horder Hused Hnests).
Defined.

(** The nodes: the method that lists them uses [NodeSerializer], whose
    [get_fields] adds a serializer of the class itself.  With the thousand
    nested calls the interpreter allows by default, the set of serializers
    is not built. *)
Lemma node_models_witness :
  (forall c, c = NodeSerializer ->
             exists n fld many cls,
               (n, fld) ∈ node_get_fields c /\ kind fld = Serializer many cls
               /\ cls = NodeSerializer)
  /\ (used_by_method WrappedAPIViewIntrospector NodeViewSetIntrospector
        APIViewIntrospector node_apis (SClass NodeSerializer)
      \/ SClass NodeSerializer ∈ SClass <$> explicit_serializers)
  /\ serializer_class (SClass NodeSerializer) = NodeSerializer
  /\ model_serializers_bounded VERSION WrappedAPIViewIntrospector
       NodeViewSetIntrospector APIViewIntrospector explicit_serializers
       node_get_fields 1000 node_apis = None.
Proof.
  assert (Hcycle : forall c, c = NodeSerializer ->
                     exists n fld many cls,
                       (n, fld) ∈ node_get_fields c /\ kind fld = Serializer many cls
                       /\ cls = NodeSerializer).
  { intros c ->. exists "parent", (nested false false false false NodeSerializer),
      false, NodeSerializer.
    split; [vm_compute; repeat constructor |]. split; reflexivity. }
  assert (Hused : used_by_method WrappedAPIViewIntrospector NodeViewSetIntrospector
                    APIViewIntrospector node_apis (SClass NodeSerializer)
                  \/ SClass NodeSerializer ∈ SClass <$> explicit_serializers).
  { left. exists (mkApi "/nodes/" "^nodes/$" NodeViewSet), list_nodes.
    split; [repeat constructor |]. split; [vm_compute; repeat constructor | reflexivity]. }
  split; [exact Hcycle |]. split; [exact Hused |]. split; [reflexivity |].
  exact (get_models_overflows_on_cyclic_nesting
           VERSION WrappedAPIViewIntrospector NodeViewSetIntrospector
           APIViewIntrospector explicit_serializers
           node_get_fields (fun c => c = NodeSerializer) node_apis
           (SClass NodeSerializer) 1000 Hcycle Hused eq_refl).
Defined.

(** ** More of the generator on the example project *)


(** The labels of a tag: a multiple choice among two keys. *)
Lemma labels_enum_witness :
  NoDup (get_fields TagSerializer).*1
  /\ ("labels", labels) ∈ get_fields TagSerializer
  /\ exists data f,
       fields_of (Some (SClass TagSerializer)) = Some data
       /\ Dict.get "labels" (data_fields data) = Some (VDict f)
       /\ Dict.get "enum" f = Some (VList [VStr "n"; VStr "o"]).
Proof.
  assert (Hnd : NoDup (get_fields TagSerializer).*1) by by_computation.
  assert (Hin : ("labels", labels) ∈ get_fields TagSerializer) by (repeat constructor).
  split; [exact Hnd |]. split; [exact Hin |].
  destruct (field_enum_lists_the_choice_keys
              VERSION PRIMITIVES get_data_type get_default_value
              (SClass TagSerializer) "labels" labels Hnd Hin)
    as (data & f & Hdata & Hf & Henum & _).
  exists data, f. split; [exact Hdata |]. split; [exact Hf |].
  exact (Henum _ eq_refl eq_refl).
Defined.

(** The help text of the rating is its description; the help text of the
    labels is white space, and their description is [None]. *)
Lemma rating_description_witness :
  NoDup (get_fields CommentSerializer).*1
  /\ ("rating", rating) ∈ get_fields CommentSerializer
  /\ exists data f,
       fields_of (Some (SInstance CommentSerializer)) = Some data
       /\ Dict.get "rating" (data_fields data) = Some (VDict f)
       /\ Dict.get "description" f = Some (VStr "Stars, one to five").
Proof.
  assert (Hnd : NoDup (get_fields CommentSerializer).*1) by by_computation.
  assert (Hin : ("rating", rating) ∈ get_fields CommentSerializer)
    by (repeat constructor).
  split; [exact Hnd |]. split; [exact Hin |].
  destruct (field_description_is_the_help_text
              VERSION PRIMITIVES get_data_type get_default_value
              (SInstance CommentSerializer) "rating" rating Hnd Hin)
    as (data & f & Hdata & Hf & Htext & _).
  exists data, f. split; [exact Hdata |]. split; [exact Hf |].
  exact (Htext _ eq_refl eq_refl).
Defined.

(** The password of a user is required and not read-only. *)
Lemma password_flags_witness :
  NoDup (get_fields UserSerializer).*1
  /\ ("password", plain "CharField" false true true) ∈ get_fields UserSerializer
  /\ exists data f,
       fields_of (Some (SClass UserSerializer)) = Some data
       /\ Dict.get "password" (data_fields data) = Some (VDict f)
       /\ "password" ∈ data_required data
       /\ Dict.get "required" f = Some (VBool true)
       /\ ("password" ∈ data_read_only data
           <-> Dict.get "readOnly" f = Some (VBool true)).
Proof.
  assert (Hnd : NoDup (get_fields UserSerializer).*1) by by_computation.
  assert (Hin : ("password", plain "CharField" false true true)
                  ∈ get_fields UserSerializer) by (repeat constructor).
  split; [exact Hnd |]. split; [exact Hin |].
  destruct (field_flags_agree_with_the_lists
              VERSION PRIMITIVES get_data_type get_default_value
              (SClass UserSerializer) "password" (plain "CharField" false true true)
              Hnd Hin)
    as (data & f & Hdata & Hf & Hrequired & Hread_only & _).
  exists data, f. split; [exact Hdata |]. split; [exact Hf |].
  assert (Hschema : Dict.get "required" f = Some (VBool true)).
  { vm_compute in Hdata. injection Hdata as <-. vm_compute in Hf.
    injection Hf as <-. reflexivity. }
  split; [apply Hrequired; exact Hschema |]. split; [exact Hschema | exact Hread_only].
Defined.

(** The write model of the users, in the models of the example project. *)
Lemma write_user_required_witness :
  exists v,
    all_models apis (generate_docs apis ∅).2 !! "WriteUserSerializer" = Some v
    /\ (generate_docs apis ∅).2 !! "WriteUserSerializer" = None
    /\ exists model required properties,
         v = VDict model
         /\ Dict.get "id" model = Some (VStr "WriteUserSerializer")
         /\ Dict.get "required" model = Some (VList (VStr <$> required))
         /\ Dict.get "properties" model = Some (VDict properties)
         /\ forall n, n ∈ required -> n ∈ Dict.keys properties.
Proof.
  eexists.
  assert (Hlookup : all_models apis (generate_docs apis ∅).2
                      !! "WriteUserSerializer" = Some _)
    by (vm_compute; reflexivity).
  assert (Hnone : (generate_docs apis ∅).2 !! "WriteUserSerializer" = None)
    by (vm_compute; reflexivity).
  split; [exact Hlookup |]. split; [exact Hnone |].
  exact (required_names_are_properties
           VERSION PRIMITIVES get_data_type get_default_value
           WrappedAPIViewIntrospector ViewSetIntrospector APIViewIntrospector
           explicit_serializers apis (generate_docs apis ∅).2
           "WriteUserSerializer" _ Hlookup Hnone).
Defined.

(** A set that holds an older object already: the walk from [PostSerializer]
    finds the same instances as from the empty set. *)
Lemma older_object_witness :
  (forall o : obj, o ∈ [(0, SInstance UserSerializer)] -> o.1 < 1)
  /\ _find_field_serializers VERSION [PostSerializer] [(0, SInstance UserSerializer)] 1
     = _find_field_serializers VERSION [PostSerializer] [] 1.
Proof.
  assert (Holder : forall o : obj, o ∈ [(0, SInstance UserSerializer)] -> o.1 < 1).
  { intros o Ho. apply list_elem_of_singleton in Ho as ->. simpl. lia. }
  split; [exact Holder |].
  exact (found_serializers_cuts_nothing
           VERSION [PostSerializer] [(0, SInstance UserSerializer)] 1 Holder).
Defined.

(** The write model of the profile is in the models of the example project:
    it is the model of a class nested in one a method uses. *)
Lemma write_profile_origin_witness :
  exists v,
    all_models apis (generate_docs apis ∅).2 !! "WriteProfileSerializer" = Some v
    /\ ((generate_docs apis ∅).2 !! "WriteProfileSerializer" = Some v
        \/ exists s c,
             (used_by_method WrappedAPIViewIntrospector ViewSetIntrospector
                APIViewIntrospector apis s
              \/ s ∈ SClass <$> explicit_serializers)
             /\ rtc nests (serializer_class s) c
             /\ ("WriteProfileSerializer" = class_name c
                 \/ "WriteProfileSerializer" = "Write" +:+ class_name c)
             /\ register_models VERSION PRIMITIVES get_data_type get_default_value
                  ∅ (SClass c) !! "WriteProfileSerializer" = Some v).
Proof.
  eexists.
  assert (Hlookup : all_models apis (generate_docs apis ∅).2
                      !! "WriteProfileSerializer" = Some _)
    by (vm_compute; reflexivity).
  split; [exact Hlookup |].
  exact (get_models_has_nothing_else
           VERSION PRIMITIVES get_data_type get_default_value
           WrappedAPIViewIntrospector ViewSetIntrospector APIViewIntrospector
           explicit_serializers apis (generate_docs apis ∅).2
           "WriteProfileSerializer" _ Hlookup).
Defined.


(** The serializers of the example project have four names, none the write
    name of another: run over backwards they give the same models. *)
Lemma backwards_models_witness :
  (forall x, x ∈ reverse (serializers_of apis) <-> x ∈ serializers_of apis)
  /\ (forall s x, s ∈ serializers_of apis -> x ∈ serializers_of apis ->
                  serializer_class x = serializer_class s
                  \/ (serializer_name x <> serializer_name s
                      /\ serializer_name x
                         <> "Write" +:+ serializer_name s
                      /\ "Write" +:+ serializer_name x
                         <> serializer_name s))
  /\ models_over (reverse (serializers_of apis)) (generate_docs apis ∅).2
     = models_over (serializers_of apis) (generate_docs apis ∅).2.
Proof.
  assert (Horder : forall x, x ∈ reverse (serializers_of apis) <-> x ∈ serializers_of apis)
    by (intros x; apply elem_of_reverse).
  assert (Hnames : forall s x, s ∈ serializers_of apis -> x ∈ serializers_of apis ->
                     serializer_class x = serializer_class s
                     \/ (serializer_name x <> serializer_name s
                         /\ serializer_name x
                            <> "Write" +:+ serializer_name s
                         /\ "Write" +:+ serializer_name x
                            <> serializer_name s)).
  { assert (Hset : serializers_of apis =
                     [SClass PostSerializer; SInstance UserSerializer;
                      SInstance ProfileSerializer; SInstance CommentSerializer;
                      SInstance CommentSerializer]) by (vm_compute; reflexivity).
    rewrite Hset. intros s x Hs Hx.
    repeat (apply elem_of_cons in Hs as [-> | Hs]);
      try (apply elem_of_nil in Hs; destruct Hs);
      repeat (apply elem_of_cons in Hx as [-> | Hx]);
      try (apply elem_of_nil in Hx; destruct Hx);
      first [ left; reflexivity
            | right; repeat split; vm_compute; discriminate ]. }
  split; [exact Horder |]. split; [exact Hnames |].
  exact (get_models_order_is_irrelevant
           VERSION PRIMITIVES get_data_type get_default_value
           (serializers_of apis) (reverse (serializers_of apis))
           (generate_docs apis ∅).2 Horder Hnames).
Defined.

(** The one entry [generate] registers for the example project comes from the
    docstring of the statistics view. *)
Lemma stats_entry_origin_witness :
  exists v,
    (generate_docs apis ∅).2 !! "erStatsGetResponse" = Some v
    /\ ((∅ : gmap string value) !! "erStatsGetResponse" = Some v
        \/ exists api m response_type,
             api ∈ apis /\ m ∈ method_introspectors (introspector_of api apis)
             /\ skipped m = false
             /\ get_response_type (get_yaml_parser m) = Some response_type
             /\ "erStatsGetResponse" = response_type_name (introspector_of api apis) m
             /\ v = VDict [("id", VStr "erStatsGetResponse");
                           ("properties", response_type)]).
Proof.
  eexists.
  assert (Hlookup : (generate_docs apis ∅).2 !! "erStatsGetResponse" = Some _)
    by (vm_compute; reflexivity).
  split; [exact Hlookup |].
  exact (generate_registers_response_types_only
           get_view_description WrappedAPIViewIntrospector ViewSetIntrospector
           APIViewIntrospector apis ∅ "erStatsGetResponse" _ Hlookup).
Defined.

(** The view set of the posts: 'ViewSet' is dropped from its name. *)
Lemma posts_view_name_witness :
  ("V"%char ∉ list_ascii_of_string "Post")
  /\ (cb_name (callback (introspector_of posts_api apis)) = "Post" +:+ "ViewSet"
      \/ cb_name (callback (introspector_of posts_api apis)) = "Post" +:+ "APIView"
      \/ (cb_name (callback (introspector_of posts_api apis)) = "Post" +:+ "View"
          /\ forall pre, "Post" <> pre +:+ "API")
      \/ cb_name (callback (introspector_of posts_api apis)) = "Post")
  /\ response_type_name (introspector_of posts_api apis) list_posts = "PostListResponse".
Proof.
  assert (HV : "V"%char ∉ list_ascii_of_string "Post") by by_computation.
  assert (Hname :
            cb_name (callback (introspector_of posts_api apis)) = "Post" +:+ "ViewSet"
            \/ cb_name (callback (introspector_of posts_api apis)) = "Post" +:+ "APIView"
            \/ (cb_name (callback (introspector_of posts_api apis)) = "Post" +:+ "View"
                /\ forall pre, "Post" <> pre +:+ "API")
            \/ cb_name (callback (introspector_of posts_api apis)) = "Post")
    by (left; reflexivity).
  split; [exact HV |]. split; [exact Hname |].
  exact (response_type_name_drops_the_suffix
           (introspector_of posts_api apis) list_posts "Post" HV Hname).
Defined.


(** ** Where the specification and the code part *)


(** C5 as worded fails: the author of a post is a serializer, and its 'type'
    is the name of the serializer, not the data type of the field. *)
Lemma field_type_is_not_always_the_data_type :
  ("author", nested false true false false UserSerializer) ∈ get_fields PostSerializer
  /\ get_data_type (nested false true false false UserSerializer) = "string"
  /\ exists data f,
       fields_of (Some (SClass PostSerializer)) = Some data
       /\ Dict.get "author" (data_fields data) = Some (VDict f)
       /\ Dict.get "type" f = Some (VStr "UserSerializer")
       /\ Dict.get "type" f <>
            Some (VStr (get_data_type (nested false true false false UserSerializer))).
Proof.
  split; [repeat constructor |]. split; [reflexivity |].
  eexists _, _. split; [reflexivity |]. split; [vm_compute; reflexivity |].
  split; [reflexivity |]. vm_compute. discriminate.
Qed.

(** ** The code run on the example project *)

Example remove_all_ViewSet : PyStr.remove_all "ViewSet" "UserViewSet" = "User".
Proof. reflexivity. Qed.

Example remove_all_inner : PyStr.remove_all "View" "ViewerListView" = "erList".
Proof. reflexivity. Qed.

Example title_partial_update :
  PyStr.remove_all "_" (PyStr.title "partial_update") = "PartialUpdate".
Proof. reflexivity. Qed.

Example title_GET : PyStr.title "GET" = "Get".
Proof. reflexivity. Qed.

(** A minimum alone is not reported. *)
Example votes_have_no_bounds :
  field_schema VERSION PRIMITIVES get_data_type get_default_value votes =
    [("description", VNone); ("type", VStr "integer"); ("format", VStr "int32");
     ("required", VBool false); ("defaultValue", VNone); ("readOnly", VBool false)].
Proof. reflexivity. Qed.

(** The serializers [get_models] runs over for the example: the class the
    methods use and the instances found in fields, the comments twice. *)
Example blog_serializers :
  serializers_of apis =
    [SClass PostSerializer; SInstance UserSerializer; SInstance ProfileSerializer;
     SInstance CommentSerializer; SInstance CommentSerializer].
Proof. vm_compute. reflexivity. Qed.

Example blog_paths :
  (fun doc => match doc with VDict d => Dict.get "path" d | _ => None end)
    <$> (generate_docs apis ∅).1
  = [Some (VStr "/posts/"); Some (VStr "/stats/"); Some (VStr "/ping/")].
Proof. vm_compute. reflexivity. Qed.
